(** * remix-architect: the Architect / API Gateway adapter of Remix

    A shallow embedding of [packages/remix-architect/server.ts]:
    [createRemixHeaders], [createRemixRequest], [bufferStream] and
    [sendRemixResponse], with the parts of the platform they call
    (node-fetch 2 [Headers], the WHATWG [URL] constructor, [Buffer]).

    Strings.  A JavaScript string is modelled by a Rocq [string] whose
    characters stand for the UTF-16 code units of the same number, so the
    model speaks about the strings whose code units are below 256.

    Platform.  A call of the platform is followed on the inputs described
    with its definition and answered [Unmodelled] elsewhere; a call that
    throws, rejects or never settles is an abrupt completion. *)

From Stdlib Require Import Ascii NArith ZArith.
From stdpp Require Import base option list strings pretty gmap fin_maps.

Local Open Scope string_scope.
Local Open Scope list_scope.

(** ** Completions

    A call either returns a value or completes abruptly.  Asynchronous
    functions use the same type: [Normal] is a fulfilled promise. *)

Inductive abrupt : Type :=
| TypeError      (* a TypeError is thrown, or the promise rejects with one *)
| StreamError    (* the promise rejects with the error of the stream *)
| AbortError     (* the same, for an error of the stream named AbortError *)
| FetchError     (* the promise rejects with a FetchError of node-fetch that
                    wraps the error of the stream *)
| Unsettled      (* the promise is never settled *)
| Unmodelled.    (* the platform call leaves the fragment modelled here *)

Inductive completion (A : Type) : Type :=
| Normal (a : A)
| Abrupt (k : abrupt).

Arguments Normal {A} a.
Arguments Abrupt {A} k.

#[global] Instance completion_ret : MRet completion := fun A a => Normal a.

#[global] Instance completion_bind : MBind completion := fun A B f c =>
  match c with
  | Normal a => f a
  | Abrupt k => Abrupt k
  end.

(** ** Strings of the language *)

Module JS.

Definition code (c : ascii) : N := N_of_ascii c.

Definition between (lo hi : N) (c : ascii) : bool :=
  ((lo <=? code c) && (code c <=? hi))%N.

(** [String.prototype.toLowerCase] on one code unit below 256: the ASCII
    capitals and the Latin-1 capitals U+00C0..U+00DE (U+00D7, the
    multiplication sign, apart) move up by 32. *)
Definition lower_char (c : ascii) : ascii :=
  if between 65 90 c || (between 192 222 c && negb (code c =? 215)%N)
  then ascii_of_N (code c + 32)
  else c.

Fixpoint toLowerCase (s : string) : string :=
  match s with
  | EmptyString => EmptyString
  | String c s' => String (lower_char c) (toLowerCase s')
  end.

Fixpoint all_chars (p : ascii -> bool) (s : string) : bool :=
  match s with
  | EmptyString => true
  | String c s' => p c && all_chars p s'
  end.

(** [Array.prototype.join] on an array of strings. *)
Fixpoint join (sep : string) (l : list string) : string :=
  match l with
  | [] => ""
  | [x] => x
  | x :: rest => x +:+ sep +:+ join sep rest
  end.

(** Truthiness of a value of type [string | undefined]. *)
Definition truthy (v : option string) : bool :=
  match v with
  | Some s => negb (String.eqb s "")
  | None => false
  end.

(** [a || b] on values of type [string | undefined]. *)
Definition or_else (a b : option string) : option string :=
  if truthy a then a else b.

(** A value of type [string | undefined] inside a template literal. *)
Definition template (v : option string) : string :=
  match v with
  | Some s => s
  | None => "undefined"
  end.

(** The own enumerable string-keyed properties of a plain object, as
    [Object.entries] lists them.  Keys are pairwise distinct. *)
Definition object (V : Type) : Type := list (string * V).

Fixpoint get_prop {V : Type} (o : object V) (k : string) : option V :=
  match o with
  | [] => None
  | (k', v) :: rest => if String.eqb k' k then Some v else get_prop rest k
  end.

(** [o[k] = v]: an existing property keeps its place, a new one goes last.
    (A key that is an array index, such as [7], is enumerated before the
    other keys; nothing below depends on where such a key stands.) *)
Fixpoint set_prop {V : Type} (o : object V) (k : string) (v : V) : object V :=
  match o with
  | [] => [(k, v)]
  | (k', v') :: rest =>
      if String.eqb k' k then (k', v) :: rest else (k', v') :: set_prop rest k v
  end.

(** [delete o[k]]. *)
Fixpoint delete_prop {V : Type} (o : object V) (k : string) : object V :=
  match o with
  | [] => []
  | (k', v') :: rest =>
      if String.eqb k' k then rest else (k', v') :: delete_prop rest k
  end.

End JS.

(** ** node-fetch 2: [Headers]

    The class keeps one object, [this[MAP]], from header names as they were
    first written to the list of their values; names are looked up without
    regard to case. *)

Module Headers.

Definition t : Type := JS.object (list string).

(** [invalidTokenRegex = /[^\^_`a-zA-Z\-0-9!#$%&'*+.|~]/] *)
Definition token_char (c : ascii) : bool :=
  JS.between 97 122 c || JS.between 65 90 c || JS.between 48 57 c
  || bool_decide (c ∈ ["^"; "_"; "`"; "-"; "!"; "#"; "$"; "%"; "&"; "'";
                       "*"; "+"; "."; "|"; "~"]%char).

(** [invalidHeaderCharRegex = /[^\t\x20-\x7e\x80-\xff]/] *)
Definition value_char (c : ascii) : bool :=
  (JS.code c =? 9)%N || JS.between 32 126 c || JS.between 128 255 c.

Definition validName (name : string) : bool :=
  JS.all_chars token_char name && negb (String.eqb name "").

Definition validValue (value : string) : bool :=
  JS.all_chars value_char value.

Definition validateName (name : string) : completion unit :=
  if validName name then Normal tt else Abrupt TypeError.

Definition validateValue (value : string) : completion unit :=
  if validValue value then Normal tt else Abrupt TypeError.

(** [find(map, name)]: the first key that equals [name] once both are in
    lower case. *)
Fixpoint find (map : t) (name : string) : option string :=
  match map with
  | [] => None
  | (key, _) :: rest =>
      if String.eqb (JS.toLowerCase key) (JS.toLowerCase name)
      then Some key
      else find rest name
  end.

Definition empty : t := [].

Definition get (h : t) (name : string) : completion (option string) :=
  _ ← validateName name;
  match find h name with
  | None => Normal None
  | Some key =>
      Normal (match JS.get_prop h key with
              | Some values => Some (JS.join ", " values)
              | None => None
              end)
  end.

Definition set (h : t) (name value : string) : completion t :=
  _ ← validateName name;
  _ ← validateValue value;
  Normal (JS.set_prop h (default name (find h name)) [value]).

Definition append (h : t) (name value : string) : completion t :=
  _ ← validateName name;
  _ ← validateValue value;
  match find h name with
  | Some key =>
      Normal (JS.set_prop h key (default [] (JS.get_prop h key) ++ [value]))
  | None => Normal (JS.set_prop h name [value])
  end.

Definition delete (h : t) (name : string) : completion t :=
  _ ← validateName name;
  match find h name with
  | Some key => Normal (JS.delete_prop h key)
  | None => Normal h
  end.

(** [raw()] hands out [this[MAP]] itself. *)
Definition raw (h : t) : JS.object (list string) := h.

(** [Array.prototype.sort] without a comparator, on keys: by code units. *)
Fixpoint insert_sorted (k : string) (l : list string) : list string :=
  match l with
  | [] => [k]
  | k' :: rest =>
      if String.leb k k' then k :: l else k' :: insert_sorted k rest
  end.

Definition sort (l : list string) : list string :=
  foldr insert_sorted [] l.

(** Iterating a [Headers]: [getHeaders(headers, "key+value")] sorts the
    keys and gives each in lower case with its values joined. *)
Definition entries (h : t) : list (string * string) :=
  (fun k => (JS.toLowerCase k, JS.join ", " (default [] (JS.get_prop h k))))
    <$> sort (fst <$> h).

(** The representation invariant of the class: no two keys are the same
    header name, and every key has at least one value.  [empty] has it
    and [set], [append] and [delete] keep it. *)
Fixpoint wf (h : t) : bool :=
  match h with
  | [] => true
  | (key, values) :: rest =>
      negb (bool_decide (values = []))
      && forallb (fun kv => negb (String.eqb (JS.toLowerCase (fst kv)) (JS.toLowerCase key))) rest
      && wf rest
  end.

End Headers.

(** ** Buffers, streams and text *)

Definition Buffer : Type := list Byte.byte.

(** [Buffer.concat(chunks)] *)
Definition Buffer_concat (chunks : list Buffer) : Buffer := concat chunks.

(** A string value of the program.  [Utf8 b] is the string that
    [b.toString()] makes of a buffer, the bytes decoded as UTF-8: the
    decoder is the platform's and may leave the strings modelled here, so
    the text keeps the bytes. *)
Inductive Text : Type :=
| Str (s : string)
| Utf8 (b : Buffer).

(** What a readable stream emits, in order, from the moment it is listened
    to.  node-fetch tells an error named AbortError from every other error,
    so the two are two events. *)
Inductive stream_event : Type :=
| Data (chunk : Buffer)
| End
| Error       (* an [error] event whose error is not named AbortError *)
| Aborted.    (* an [error] event whose error is named AbortError *)

Definition Stream : Type := list stream_event.

(** The value of [response.body].  node-fetch 2 keeps the body a response
    was made with: [null] for no body, a Buffer for a Buffer, a string, an
    ArrayBuffer or URLSearchParams (which the constructor turns into a
    Buffer), and the stream itself for a stream.  A Blob, whose bytes
    node-fetch keeps in a Buffer and which is no stream either, is read the
    same way by both readers below and stands with the Buffer. *)
Inductive Body : Type :=
| NullBody
| BufferBody (b : Buffer)
| StreamBody (s : Stream).

(** The promise of [bufferStream] and the [chunks] array its listeners
    share. *)
Record listeners : Type := mkListeners {
  chunks : list Buffer;
  settled : option (completion Buffer)
}.

(** [accept] and [reject] settle a promise once; later calls do nothing. *)
Definition settle (p : option (completion Buffer)) (c : completion Buffer)
  : option (completion Buffer) :=
  match p with
  | Some _ => p
  | None => Some c
  end.

(** The three listeners of [bufferStream]; [reject] is handed the error of
    the stream, whatever its name. *)
Definition on_event (st : listeners) (ev : stream_event) : listeners :=
  match ev with
  | Data chunk => mkListeners (chunks st ++ [chunk]) (settled st)
  | End => mkListeners (chunks st) (settle (settled st) (Normal (Buffer_concat (chunks st))))
  | Error => mkListeners (chunks st) (settle (settled st) (Abrupt StreamError))
  | Aborted => mkListeners (chunks st) (settle (settled st) (Abrupt AbortError))
  end.

(** The promise once the stream has emitted its events. *)
Definition outcome (st : listeners) : completion Buffer :=
  match settled st with
  | Some c => c
  | None => Abrupt Unsettled
  end.

(** [bufferStream(stream)].  The parameter is declared a readable stream,
    and at run time it is whatever the caller hands over: on a value that is
    no stream ([null] or a Buffer) [stream.on] is no function, the executor
    of the promise throws a TypeError and the promise rejects with it. *)
Definition bufferStream (stream : Body) : completion Buffer :=
  match stream with
  | StreamBody events => outcome (foldl on_event (mkListeners [] None) events)
  | NullBody | BufferBody _ => Abrupt TypeError
  end.

(** ** The response and the reply *)

(** A response of node-fetch 2, made with the defaults of its constructor
    (no size limit, no timeout) and not read yet. *)
Record NodeResponse : Type := mkResponse {
  status : Z;
  headers : Headers.t;
  body : Body
}.

(** [abortController.signal.aborted], as [sendRemixResponse] reads it. *)
Record AbortController : Type := mkAbortController {
  aborted : bool
}.

(** node-fetch 2, the listeners of [consumeBody] on a stream: an error
    named AbortError rejects the promise as it is, any other error is
    wrapped in a FetchError.  (After an AbortError the chunks are dropped,
    which the settled promise does not show.) *)
Definition on_body_event (st : listeners) (ev : stream_event) : listeners :=
  match ev with
  | Data chunk => mkListeners (chunks st ++ [chunk]) (settled st)
  | End => mkListeners (chunks st) (settle (settled st) (Normal (Buffer_concat (chunks st))))
  | Error => mkListeners (chunks st) (settle (settled st) (Abrupt FetchError))
  | Aborted => mkListeners (chunks st) (settle (settled st) (Abrupt AbortError))
  end.

(** node-fetch 2, [consumeBody]: no body is the empty buffer, a Buffer is
    itself, a stream is collected until it ends. *)
Definition consumeBody (body : Body) : completion Buffer :=
  match body with
  | NullBody => Normal []
  | BufferBody b => Normal b
  | StreamBody events => outcome (foldl on_body_event (mkListeners [] None) events)
  end.

(** node-fetch 2, [Body.prototype.text]: the buffer of [consumeBody], turned
    into a string. *)
Definition Response_text (response : NodeResponse) : completion Text :=
  buffer ← consumeBody (body response);
  Normal (Utf8 buffer).

Record Reply : Type := mkReply {
  statusCode : Z;
  reply_headers : gmap string string;
  cookies : list string;
  reply_body : Text;
  isBase64Encoded : bool
}.

(** [Object.fromEntries]: a later entry overwrites an earlier one of the
    same key. *)
Definition Object_fromEntries (l : list (string * string)) : gmap string string :=
  foldl (fun o kv => <[kv.1 := kv.2]> o) ∅ l.

(** The two loops that collect the cookies. *)
Definition push_all (cookies values : list string) : list string :=
  foldl (fun cookies value => cookies ++ [value]) cookies values.

Definition collect_cookies (raw : JS.object (list string)) : list string :=
  foldl (fun cookies kv =>
           if String.eqb (JS.toLowerCase kv.1) "set-cookie"
           then push_all cookies kv.2
           else cookies) [] raw.

(** [binaryTypes.includes(contentType)] behind [if (contentType)]. *)
Definition classify (binaryTypes : list string) (contentType : option string) : bool :=
  if JS.truthy contentType
  then bool_decide (default "" contentType ∈ binaryTypes)
  else false.

(** [binaryTypes] is the list that [@architect/functions] exports, a list
    of MIME types; the module is not in this package, so the list is a
    parameter. *)
Definition sendRemixResponse (binaryTypes : list string)
    (response : NodeResponse) (abortController : AbortController)
  : completion Reply :=
  let cookies := collect_cookies (Headers.raw (headers response)) in
  h ← (if negb (length cookies =? 0)%nat
       then Headers.delete (headers response) "set-cookie"
       else Normal (headers response));
  h ← (if aborted abortController
       then Headers.set h "Connection" "close"
       else Normal h);
  contentType ← Headers.get h "content-type";
  let isBinary := classify binaryTypes contentType in
  body ← (if isBinary
          then buffer ← bufferStream (body response); Normal (Utf8 buffer)
          else Response_text response);
  Normal (mkReply (status response) (Object_fromEntries (Headers.entries h))
                  cookies body isBinary).

(** ** The WHATWG URL constructor

    [new URL(input, base)] on the fragment the adapter reaches with a plain
    host: the base is [https://] and a host name with an optional port,
    and the input starts with a slash.  The path, query and fragment states
    of the URL parser are followed character by character; the host parser
    is followed on host names of letters, digits, hyphens and dots that are
    neither numeric nor Punycode.  Every other call is [Unmodelled]. *)

Module URL.

Record t : Type := mk {
  hostname : string;
  port : option N;
  path : list string;
  query : option string;
  fragment : option string
}.

Definition is_in (cs : list N) (c : ascii) : bool := bool_decide (JS.code c ∈ cs).

Definition ascii_digit (c : ascii) : bool := JS.between 48 57 c.
Definition ascii_alpha (c : ascii) : bool := JS.between 65 90 c || JS.between 97 122 c.
Definition slash (c : ascii) : bool := is_in [47; 92]%N c.

(** *** Preparing the input *)

Definition c0_control_or_space (c : ascii) : bool := (JS.code c <=? 32)%N.
Definition tab_or_newline (c : ascii) : bool := is_in [9; 10; 13]%N c.

Fixpoint strip_leading (s : string) : string :=
  match s with
  | EmptyString => EmptyString
  | String c s' => if c0_control_or_space c then strip_leading s' else s
  end.

Fixpoint strip_trailing (s : string) : string :=
  match s with
  | EmptyString => EmptyString
  | String c s' =>
      let r := strip_trailing s' in
      if c0_control_or_space c && String.eqb r "" then "" else String c r
  end.

Fixpoint remove_tab_newline (s : string) : string :=
  match s with
  | EmptyString => EmptyString
  | String c s' =>
      if tab_or_newline c then remove_tab_newline s' else String c (remove_tab_newline s')
  end.

Definition clean (s : string) : string :=
  remove_tab_newline (strip_trailing (strip_leading s)).

(** *** Percent-encoding *)

Definition c0_control_set (c : ascii) : bool :=
  (JS.code c <? 32)%N || (126 <? JS.code c)%N.
Definition fragment_set (c : ascii) : bool :=
  c0_control_set c || is_in [32; 34; 60; 62; 96]%N c.
Definition query_set (c : ascii) : bool :=
  c0_control_set c || is_in [32; 34; 35; 60; 62]%N c.
Definition special_query_set (c : ascii) : bool :=
  query_set c || is_in [39]%N c.
Definition path_set (c : ascii) : bool :=
  query_set c || is_in [63; 96; 123; 125]%N c.

Definition hex_digit (n : N) : ascii :=
  if (n <? 10)%N then ascii_of_N (48 + n) else ascii_of_N (55 + n).

Definition percent_byte (n : N) : string :=
  String "%" (String (hex_digit (n / 16)) (String (hex_digit (n mod 16)) "")).

(** The UTF-8 bytes of a code point below 256. *)
Definition utf8_bytes (c : ascii) : list N :=
  let n := JS.code c in
  if (n <? 128)%N then [n] else [192 + n / 64; 128 + n mod 64]%N.

Definition percent_encode (set : ascii -> bool) (c : ascii) : string :=
  if set c
  then foldr (fun b s => percent_byte b +:+ s) "" (utf8_bytes c)
  else String c "".

Fixpoint percent_encode_string (set : ascii -> bool) (s : string) : string :=
  match s with
  | EmptyString => EmptyString
  | String c s' => percent_encode set c +:+ percent_encode_string set s'
  end.

(** *** Hosts *)

Inductive label_state : Type :=
| LabelStart
| InLabel (first_is_alpha last_is_hyphen : bool).

(** Host names the host parser answers in lower case and nothing else:
    labels of letters, digits and single inner hyphens, set apart by
    single dots, the last label starting with a letter. *)
Fixpoint plain_hostname_from (st : label_state) (s : string) : bool :=
  match s, st with
  | EmptyString, InLabel true false => true
  | EmptyString, _ => false
  | String c s', LabelStart =>
      if ascii_alpha c then plain_hostname_from (InLabel true false) s'
      else if ascii_digit c then plain_hostname_from (InLabel false false) s'
      else false
  | String c s', InLabel a h =>
      if ascii_alpha c || ascii_digit c then plain_hostname_from (InLabel a false) s'
      else if is_in [45]%N c then negb h && plain_hostname_from (InLabel a true) s'
      else if is_in [46]%N c then negb h && plain_hostname_from LabelStart s'
      else false
  end.

Definition plain_hostname (s : string) : bool := plain_hostname_from LabelStart s.

Definition parse_host (s : string) : completion string :=
  if plain_hostname s then Normal (JS.toLowerCase s) else Abrupt Unmodelled.

Fixpoint decimal (acc : N) (s : string) : N :=
  match s with
  | EmptyString => acc
  | String c s' => decimal (10 * acc + (JS.code c - 48)) s'
  end.

(** The port state: digits only, at most 65535, and 443 is left out. *)
Definition parse_port (s : string) : completion (option N) :=
  if JS.all_chars ascii_digit s then
    if String.eqb s "" then Normal None
    else let p := decimal 0 s in
         if (65535 <? p)%N then Abrupt TypeError
         else if (p =? 443)%N then Normal None
         else Normal (Some p)
  else Abrupt Unmodelled.

(** [span p s]: the longest prefix of [s] whose characters satisfy [p],
    and the rest. *)
Fixpoint span (p : ascii -> bool) (s : string) : string * string :=
  match s with
  | EmptyString => (EmptyString, EmptyString)
  | String c s' =>
      if p c then let '(a, b) := span p s' in (String c a, b)
      else (EmptyString, s)
  end.

(** The authority, host and port states on an authority without
    credentials. *)
Definition parse_authority (s : string) : completion (string * option N) :=
  let '(h, rest) := span (fun c => negb (is_in [58]%N c)) s in
  host ← parse_host h;
  match rest with
  | EmptyString => Normal (host, None)
  | String _ digits => p ← parse_port digits; Normal (host, p)
  end.

(** *** The path, query and fragment states *)

Definition single_dot (buffer : string) : bool :=
  bool_decide (JS.toLowerCase buffer ∈ ["."; "%2e"]).

Definition double_dot (buffer : string) : bool :=
  bool_decide (JS.toLowerCase buffer ∈ [".."; ".%2e"; "%2e."; "%2e%2e"]).

(** The end of a path segment; [at_slash] tells whether a slash ended it. *)
Definition end_segment (path : list string) (buffer : string) (at_slash : bool)
  : list string :=
  if double_dot buffer then
    let shortened := removelast path in
    if at_slash then shortened else shortened ++ [""]
  else if single_dot buffer then
    if at_slash then path else path ++ [""]
  else path ++ [buffer].

Definition fragment_state (s : string) : string :=
  percent_encode_string fragment_set s.

Definition query_state (s : string) : string * option string :=
  let '(q, rest) := span (fun c => negb (is_in [35]%N c)) s in
  (percent_encode_string special_query_set q,
   match rest with
   | EmptyString => None
   | String _ f => Some (fragment_state f)
   end).

(** The path state.  The caret is answered [Unmodelled]: the path
    percent-encode set has it in some versions of the standard only. *)
Fixpoint path_state (host : string) (port : option N)
    (path : list string) (buffer : string) (s : string) : completion t :=
  match s with
  | EmptyString => Normal (mk host port (end_segment path buffer false) None None)
  | String c s' =>
      if slash c then path_state host port (end_segment path buffer true) "" s'
      else if is_in [63]%N c then
        let '(q, f) := query_state s' in
        Normal (mk host port (end_segment path buffer false) (Some q) f)
      else if is_in [35]%N c then
        Normal (mk host port (end_segment path buffer false) None
                   (Some (fragment_state s')))
      else if is_in [94]%N c then Abrupt Unmodelled
      else path_state host port path (buffer +:+ percent_encode path_set c) s'
  end.

(** The path start state of a special URL: one slash, if there, is
    passed over. *)
Definition path_start_state (host : string) (port : option N) (s : string)
  : completion t :=
  match s with
  | String c s' => if slash c then path_state host port [] "" s'
                   else path_state host port [] "" s
  | EmptyString => path_state host port [] "" s
  end.

Fixpoint skip_slashes (s : string) : string :=
  match s with
  | EmptyString => EmptyString
  | String c s' => if slash c then skip_slashes s' else s
  end.

Fixpoint strip_prefix (p s : string) : option string :=
  match p, s with
  | EmptyString, _ => Some s
  | String a p', String b s' => if Ascii.eqb a b then strip_prefix p' s' else None
  | String _ _, EmptyString => None
  end.

(** The base [https://host[:port]]: its path is the root, it has no
    query and no fragment. *)
Definition parse_base (base : string) : completion (string * option N) :=
  match strip_prefix "https://" (clean base) with
  | Some authority => parse_authority authority
  | None => Abrupt Unmodelled
  end.

(** An input that starts with a slash, against such a base: the relative
    slash state keeps the host of the base after one slash and reads a
    new authority after two. *)
Definition parse_relative (input : string) (base : string * option N)
  : completion t :=
  match clean input with
  | String c s1 =>
      if slash c then
        match s1 with
        | String c2 s2 =>
            if slash c2 then
              let '(authority, rest) :=
                span (fun c => negb (is_in [47; 92; 63; 35]%N c)) (skip_slashes s2) in
              '(host, port) ← parse_authority authority;
              path_start_state host port rest
            else path_state base.1 base.2 [] "" s1
        | EmptyString => path_state base.1 base.2 [] "" s1
        end
      else Abrupt Unmodelled
  | EmptyString => Abrupt Unmodelled
  end.

(** [new URL(input, base)] *)
Definition new (input base : string) : completion t :=
  b ← parse_base base;
  parse_relative input b.

(** The [host] getter: the host name, and the port when there is one. *)
Definition host (u : t) : string :=
  match port u with
  | None => hostname u
  | Some p => hostname u +:+ ":" +:+ pretty p
  end.

(** The path serializer and the [pathname] getter. *)
Definition serialize_path (path : list string) : string :=
  foldr (fun segment s => "/" +:+ segment +:+ s) "" path.

Definition pathname (u : t) : string := serialize_path (path u).

(** The [search] getter: empty for no query and for the empty query. *)
Definition search (u : t) : string :=
  match query u with
  | None => ""
  | Some q => if String.eqb q "" then "" else "?" +:+ q
  end.

(** The URL serializer. *)
Definition href (u : t) : string :=
  "https://" +:+ host u +:+ pathname u
    +:+ match query u with None => "" | Some q => "?" +:+ q end
    +:+ match fragment u with None => "" | Some f => "#" +:+ f end.

End URL.

(** ** [Buffer.from(string, "base64")]

    The decoder is followed on the base64 of RFC 4648: groups of four
    characters of the alphabet, the last group padded with [=] when it
    stands for one or two bytes.  On other strings it is [Unmodelled]. *)

Module Base64.

Definition sextet (c : ascii) : option N :=
  let n := JS.code c in
  if JS.between 65 90 c then Some (n - 65)%N
  else if JS.between 97 122 c then Some (n - 71)%N
  else if JS.between 48 57 c then Some (n + 4)%N
  else if (n =? 43)%N then Some 62%N
  else if (n =? 47)%N then Some 63%N
  else None.

Definition byte_of (n : N) : Byte.byte := byte_of_ascii (ascii_of_N (n mod 256)).

Definition pad (c : ascii) : bool := (JS.code c =? 61)%N.

Fixpoint decode (s : string) : completion Buffer :=
  match s with
  | EmptyString => Normal []
  | String c1 (String c2 (String c3 (String c4 rest))) =>
      match sextet c1, sextet c2 with
      | Some a, Some b =>
          match sextet c3, sextet c4 with
          | Some c, Some d =>
              tail ← decode rest;
              Normal (byte_of (4 * a + b / 16) :: byte_of (16 * b + c / 4)
                        :: byte_of (64 * c + d) :: tail)
          | Some c, None =>
              if pad c4 && String.eqb rest ""
              then Normal [byte_of (4 * a + b / 16); byte_of (16 * b + c / 4)]
              else Abrupt Unmodelled
          | None, _ =>
              if pad c3 && pad c4 && String.eqb rest ""
              then Normal [byte_of (4 * a + b / 16)]
              else Abrupt Unmodelled
          end
      | _, _ => Abrupt Unmodelled
      end
  | _ => Abrupt Unmodelled
  end.

End Base64.

(** The strings below 256 that a buffer decodes to: [Some] of the string
    when every code point of the UTF-8 text is below 256. *)
Fixpoint utf8_below_256 (b : Buffer) : option string :=
  match b with
  | [] => Some ""
  | x :: rest =>
      let n := Byte.to_N x in
      if (n <? 128)%N then String (ascii_of_N n) <$> utf8_below_256 rest
      else
        match rest with
        | y :: rest' =>
            let m := Byte.to_N y in
            if ((194 <=? n) && (n <=? 195) && (128 <=? m) && (m <=? 191))%N
            then String (ascii_of_N (64 * (n - 192) + (m - 128))) <$> utf8_below_256 rest'
            else None
        | [] => None
        end
  end.

Definition text_value (t : Text) : option string :=
  match t with
  | Str s => Some s
  | Utf8 b => utf8_below_256 b
  end.

(** ** The event and the request *)

Record Event : Type := mkEvent {
  rawPath : string;
  rawQueryString : string;
  event_headers : JS.object (option string);
  event_cookies : option (list string);
  event_method : string;               (* requestContext.http.method *)
  event_body : option string;
  event_isBase64Encoded : bool
}.

(** Modelled from the spec: [NodeRequest], the request class of
    [@remix-run/node], is not in this package.  The spec's generic request
    holds the URL, the method, the headers and the body; the record holds
    them as [createRemixRequest] hands them to the constructor, and says
    nothing of what the constructor makes of them. *)
Record NodeRequest : Type := mkRequest {
  url : string;
  method : string;
  request_headers : Headers.t;
  request_body : option Text;
  request_abortController : option AbortController;
  request_signal : option AbortController   (* the signal, by its controller *)
}.

(** [event.headers[name]] *)
Definition header_of (event : Event) (name : string) : option string :=
  JS.get_prop (event_headers event) name ≫= id.

(** The loop of [createRemixHeaders]. *)
Fixpoint append_headers (headers : Headers.t) (entries : JS.object (option string))
  : completion Headers.t :=
  match entries with
  | [] => Normal headers
  | (header, value) :: rest =>
      headers' ← (if JS.truthy value
                  then Headers.append headers header (default "" value)
                  else Normal headers);
      append_headers headers' rest
  end.

Definition createRemixHeaders (requestHeaders : JS.object (option string))
    (requestCookies : option (list string)) : completion Headers.t :=
  headers ← append_headers Headers.empty requestHeaders;
  match requestCookies with
  | Some cookies => Headers.append headers "Cookie" (JS.join "; " cookies)
  | None => Normal headers
  end.

(** [let host = event.headers["x-forwarded-host"] || event.headers.host] *)
Definition request_host (event : Event) : option string :=
  JS.or_else (header_of event "x-forwarded-host") (header_of event "host").

(** [let search]: a question mark and the raw query string when its length
    is not zero, the empty string otherwise. *)
Definition request_search (event : Event) : string :=
  if (String.length (rawQueryString event) =? 0)%nat
  then ""
  else "?" +:+ rawQueryString event.

(** [let url = new URL(event.rawPath + search, `https://${host}`)] *)
Definition request_url (event : Event) : completion URL.t :=
  URL.new (rawPath event +:+ request_search event)
          ("https://" +:+ JS.template (request_host event)).

(** The [body] handed to the constructor:
    [event.body && event.isBase64Encoded
       ? Buffer.from(event.body, "base64").toString() : event.body] *)
Definition request_body_init (event : Event) : completion (option Text) :=
  if JS.truthy (event_body event) && event_isBase64Encoded event
  then buffer ← Base64.decode (default "" (event_body event));
       Normal (Some (Utf8 buffer))
  else Normal (Str <$> event_body event).

Definition createRemixRequest (event : Event) (abortController : option AbortController)
  : completion NodeRequest :=
  u ← request_url event;
  headers ← createRemixHeaders (event_headers event) (event_cookies event);
  body ← request_body_init event;
  Normal (mkRequest (URL.href u) (event_method event) headers body
                    abortController abortController).

(** ** The request handler

    [createRequestHandler] closes over [handleRequest], the handler that
    [createRemixRequestHandler(build, platform, mode)] of
    [@remix-run/server-runtime] returns, and over [getLoadContext]; both are
    parameters, and so is the list of binary types.  The handler holds the
    request and, through it, the abort controller: besides the response it
    answers with the state it leaves the controller in. *)

Definition RemixHandler (LoadContext : Type) : Type :=
  NodeRequest -> option LoadContext -> completion (NodeResponse * AbortController).

(** [typeof getLoadContext === "function" ? getLoadContext(event) : undefined] *)
Definition load_context {LoadContext : Type}
    (getLoadContext : option (Event -> completion LoadContext)) (event : Event)
  : completion (option LoadContext) :=
  match getLoadContext with
  | Some f => context ← f event; Normal (Some context)
  | None => Normal None
  end.

(** The handler [createRequestHandler] returns, on an event. *)
Definition createRequestHandler {LoadContext : Type} (binaryTypes : list string)
    (handleRequest : RemixHandler LoadContext)
    (getLoadContext : option (Event -> completion LoadContext))
    (event : Event) : completion Reply :=
  let abortController := mkAbortController false in
  request ← createRemixRequest event (Some abortController);
  loadContext ← load_context getLoadContext event;
  answer ← handleRequest request loadContext;
  sendRemixResponse binaryTypes answer.1 answer.2.

(** * Statements

    Definitions used to state the properties. *)

(** The headers a program can hold: made by the methods of the class. *)
Inductive built : Headers.t -> Prop :=
| built_empty : built Headers.empty
| built_set (h h' : Headers.t) (name value : string) :
    built h -> Headers.set h name value = Normal h' -> built h'
| built_append (h h' : Headers.t) (name value : string) :
    built h -> Headers.append h name value = Normal h' -> built h'
| built_delete (h h' : Headers.t) (name : string) :
    built h -> Headers.delete h name = Normal h' -> built h'.

(** The invariant, as a proposition. *)
Definition well_formed (h : Headers.t) : Prop :=
  NoDup (JS.toLowerCase <$> h.*1) /\ Forall (fun kv => kv.2 <> []) h.

(** The response headers as they are when the reply is built: after the
    [delete] and the [set] of [sendRemixResponse]. *)
Definition final_headers (response : NodeResponse) (abortController : AbortController)
  : completion Headers.t :=
  let cookies := collect_cookies (Headers.raw (headers response)) in
  h ← (if negb (length cookies =? 0)%nat
       then Headers.delete (headers response) "set-cookie"
       else Normal (headers response));
  if aborted abortController
  then Headers.set h "Connection" "close"
  else Normal h.

(** The body of the reply: the string [sendRemixResponse] makes of the
    body of the response, by [bufferStream] when it is classified as binary
    and by [text] when it is not. *)
Definition body_string (isBinary : bool) (response : NodeResponse) : completion Text :=
  if isBinary
  then buffer ← bufferStream (body response); Normal (Utf8 buffer)
  else Response_text response.

(** How [consumeBody] settles on a stream on which [bufferStream] settles
    with [c]: the same way, but for the FetchError it wraps an error in. *)
Definition wrapped (c : completion Buffer) : completion Buffer :=
  match c with
  | Abrupt StreamError => Abrupt FetchError
  | _ => c
  end.

(** The values of the [Set-Cookie] entries of the raw headers, entry after
    entry, each entry's values in their order. *)
Definition set_cookie_values (raw : JS.object (list string)) : list string :=
  raw ≫= (fun kv => if String.eqb (JS.toLowerCase kv.1) "set-cookie" then kv.2 else []).

(** A response with two cookies and a text body, and one with an image. *)
Definition text_response : NodeResponse :=
  mkResponse 200
    [("Set-Cookie", ["x=1"; "y=2"]); ("Content-Type", ["text/plain"])]
    (StreamBody [Data [Byte.x6f]; Data [Byte.x6b]; End]).

Definition image_response : NodeResponse :=
  mkResponse 200
    [("content-type", ["image/png"])]
    (StreamBody [Data [Byte.x89; Byte.x50]; Data [Byte.x4e; Byte.x47]; End]).

(** The same image in a response made of a Buffer:
    [new Response(buffer, { headers: { "Content-Type": "image/png" } })]. *)
Definition image_buffer_response : NodeResponse :=
  mkResponse 200
    [("Content-Type", ["image/png"])]
    (BufferBody [Byte.x89; Byte.x50; Byte.x4e; Byte.x47]).

(** The bytes of a body that is held, not streamed. *)
Definition held_bytes (body : Body) : Buffer :=
  match body with
  | BufferBody b => b
  | NullBody | StreamBody _ => []
  end.

(** The values a [Headers] holds for a name, in the order they were
    appended. *)
Definition values_of (h : Headers.t) (name : string) : list string :=
  match Headers.find h name with
  | Some key => default [] (JS.get_prop h key)
  | None => []
  end.

(** The entries of an event's headers that [createRemixHeaders] appends
    are legal: a name is a token and a value has no control character. *)
Definition legal_entry (entry : string * option string) : bool :=
  negb (JS.truthy entry.2)
  || (Headers.validName entry.1 && Headers.validValue (default "" entry.2)).

Definition legal_headers (o : JS.object (option string)) : bool :=
  forallb legal_entry o.

(** No entry of an event's headers with a value is named [cookie], in any
    case. *)
Definition no_cookie_header (o : JS.object (option string)) : bool :=
  forallb (fun entry => negb (JS.truthy entry.2
                              && String.eqb (JS.toLowerCase entry.1) "cookie")) o.

(** Events: one with a cookie list, one that also has a [cookie] header of
    its own, one with a base64 body. *)
Definition cookie_event : Event :=
  mkEvent "/cart" "" [("host", Some "example.com"); ("accept", Some "text/html")]
          (Some ["a=1"; "b=2"]) "GET" None false.

Definition own_cookie_event : Event :=
  mkEvent "/cart" "" [("host", Some "example.com"); ("cookie", Some "z=0")]
          (Some ["a=1"; "b=2"]) "GET" None false.

Definition base64_event : Event :=
  mkEvent "/upload" "" [("host", Some "example.com")]
          None "POST" (Some "aGVsbG8=") true.

(** C5 as the specification states it: the [Cookie] header of the request
    is the cookie list joined with a semicolon and a space. *)
Definition C5_as_stated (event : Event) : Prop :=
  forall cookies a request,
    event_cookies event = Some cookies ->
    createRemixRequest event a = Normal request ->
    Headers.get (request_headers request) "Cookie"
    = Normal (Some (JS.join "; " cookies)).

(** URLs that the parser leaves as they are.  A plain character of a path
    is one the path state copies: not a slash, a backslash or a caret, and
    not in the path percent-encode set (so neither [?] nor [#]). *)
Definition plain_char (c : ascii) : bool :=
  negb (URL.path_set c) && negb (URL.is_in [47; 92; 94]%N c).

Definition dot_segment (buffer : string) : bool :=
  URL.single_dot buffer || URL.double_dot buffer.

(** [plain_segments buffer s]: [s] is made of plain characters and slashes,
    and no segment, the first continuing [buffer], is a dot segment. *)
Fixpoint plain_segments (buffer s : string) : bool :=
  match s with
  | EmptyString => negb (dot_segment buffer)
  | String c s' =>
      if URL.is_in [47]%N c
      then negb (dot_segment buffer) && plain_segments "" s'
      else plain_char c && plain_segments (buffer +:+ String c "") s'
  end.

Definition starts_with_slash (s : string) : bool :=
  match s with
  | String c _ => URL.slash c
  | EmptyString => false
  end.

(** A plain path: one slash, then plain segments. *)
Definition plain_path (p : string) : bool :=
  match p with
  | String c rest =>
      URL.is_in [47]%N c && negb (starts_with_slash rest) && plain_segments "" rest
  | EmptyString => false
  end.

(** A plain query: no character of the query percent-encode set of a
    special URL (so no [#]). *)
Definition plain_query (q : string) : bool :=
  JS.all_chars (fun c => negb (URL.special_query_set c)) q.

(** The input starts with exactly one slash or backslash. *)
Definition single_slash (s : string) : bool :=
  match s with
  | String c rest => URL.slash c && negb (starts_with_slash rest)
  | EmptyString => false
  end.

Definition no_caret (s : string) : bool :=
  JS.all_chars (fun c => negb (URL.is_in [94]%N c)) s.

Definition visible (c : ascii) : bool := (32 <? JS.code c)%N.

(** The end of the input of the path state: nothing, or a query. *)
Definition path_result (host : string) (port : option N) (path : list string)
    (tail : string) : completion URL.t :=
  match tail with
  | EmptyString => Normal (URL.mk host port path None None)
  | String _ q => let '(q', f) := URL.query_state q in
                  Normal (URL.mk host port path (Some q') f)
  end.

(** The segments of a path: what the slashes set apart, the first
    continuing [buffer]. *)
Fixpoint segments (buffer s : string) : list string :=
  match s with
  | EmptyString => [buffer]
  | String c s' =>
      if URL.is_in [47]%N c
      then buffer :: segments "" s'
      else segments (buffer +:+ String c "") s'
  end.

(** Events behind a proxy: the forwarded host as browsers write it, and as
    a proxy may write it, in capitals and with the default port. *)
Definition forwarded_event : Event :=
  mkEvent "/cart" "id=7"
          [("x-forwarded-host", Some "shop.example.com"); ("host", Some "internal.example")]
          None "GET" None false.

Definition capital_host_event : Event :=
  mkEvent "/cart" "id=7"
          [("x-forwarded-host", Some "Shop.Example.com:443");
           ("host", Some "internal.example")]
          None "GET" None false.

(** Events whose path or query the URL parser rewrites. *)
Definition double_slash_event : Event :=
  mkEvent "//evil.example/cart" ""
          [("x-forwarded-host", Some "shop.example.com"); ("host", Some "internal.example")]
          None "GET" None false.

Definition apostrophe_query_event : Event :=
  mkEvent "/search" "q=it's" [("host", Some "example.com")] None "GET" None false.

Definition dot_path_event : Event :=
  mkEvent "/a/../b" "" [("host", Some "example.com")] None "GET" None false.

(** C3 as the specification states it: with both headers, the host of the
    URL is the value of [x-forwarded-host]. *)
Definition C3_as_stated (event : Event) : Prop :=
  forall h1 h2 u,
    header_of event "x-forwarded-host" = Some h1 ->
    header_of event "host" = Some h2 ->
    request_url event = Normal u ->
    URL.host u = h1.

(** C4 as the specification states it: the URL is the host, the raw path
    and, for a raw query string that is not empty, a question mark and the
    raw query string. *)
Definition C4_as_stated (event : Event) : Prop :=
  forall u,
    request_url event = Normal u ->
    URL.href u
    = "https://" +:+ URL.host u +:+ rawPath event
        +:+ (if String.eqb (rawQueryString event) "" then ""
             else "?" +:+ rawQueryString event).

(** C9 as the specification states it: the method, the path and the query
    of the request are those of the event. *)
Definition C9_as_stated (event : Event) : Prop :=
  forall a request u,
    createRemixRequest event a = Normal request ->
    request_url event = Normal u ->
    method request = event_method event
    /\ URL.pathname u = rawPath event
    /\ default "" (URL.query u) = rawQueryString event.

(** The base64 encoder of RFC 4648, to say what [Base64.decode] decodes. *)
Definition base64_char (n : N) : ascii :=
  if (n <? 26)%N then ascii_of_N (65 + n)
  else if (n <? 52)%N then ascii_of_N (71 + n)
  else if (n <? 62)%N then ascii_of_N (n - 4)
  else if (n =? 62)%N then "+"%char
  else "/"%char.

Fixpoint base64_encode (b : Buffer) : string :=
  match b with
  | [] => ""
  | [x] =>
      let x := Byte.to_N x in
      String (base64_char (x / 4)) (String (base64_char (x mod 4 * 16)) "==")
  | [x; y] =>
      let x := Byte.to_N x in
      let y := Byte.to_N y in
      String (base64_char (x / 4))
        (String (base64_char (x mod 4 * 16 + y / 16))
           (String (base64_char (y mod 16 * 4)) "="))
  | x :: y :: z :: rest =>
      let x := Byte.to_N x in
      let y := Byte.to_N y in
      let z := Byte.to_N z in
      String (base64_char (x / 4))
        (String (base64_char (x mod 4 * 16 + y / 16))
           (String (base64_char (y mod 16 * 4 + z / 64))
              (String (base64_char (z mod 64)) (base64_encode rest))))
  end.

(** What [get] answers for a name that is a token: the values of the
    header, joined. *)
Definition header_value (h : Headers.t) (name : string) : option string :=
  match Headers.find h name with
  | Some key => JS.join ", " <$> JS.get_prop h key
  | None => None
  end.

(** Whether [sendRemixResponse] classifies a response as binary. *)
Definition is_binary (binaryTypes : list string) (response : NodeResponse) : bool :=
  classify binaryTypes (header_value (headers response) "content-type").

(** The values an event gives for a header name, whatever the case: those
    of its entries that have a value, in the order of the entries. *)
Definition matching_values (o : JS.object (option string)) (name : string) : list string :=
  o ≫= (fun entry =>
          if JS.truthy entry.2 && String.eqb (JS.toLowerCase entry.1) (JS.toLowerCase name)
          then [default "" entry.2]
          else []).

(** The first spelling of a header name among the entries of an event that
    have a value. *)
Fixpoint first_spelling (o : JS.object (option string)) (name : string) : option string :=
  match o with
  | [] => None
  | (key, value) :: rest =>
      if JS.truthy value && String.eqb (JS.toLowerCase key) (JS.toLowerCase name)
      then Some key
      else first_spelling rest name
  end.

(** The cookie list of an event makes a legal header value. *)
Definition legal_cookies (requestCookies : option (list string)) : bool :=
  match requestCookies with
  | Some cookies => Headers.validValue (JS.join "; " cookies)
  | None => true
  end.

(** A stream that fails after its first chunk, and a handler that answers
    every request with the text response and aborts. *)
Definition failing_stream : Stream := [Data [Byte.x6f]; Error; Data [Byte.x6b]; End].

Definition aborting_handler : RemixHandler unit :=
  fun _ _ => Normal (text_response, mkAbortController true).

(** Events: headers in several spellings, an illegal header name, no host
    at all, a host with a port. *)
Definition spellings_event : Event :=
  mkEvent "/" ""
          [("Accept", Some "text/html"); ("host", Some "example.com");
           ("X-Empty", Some ""); ("accept", Some "image/png"); ("x-none", None)]
          (Some ["a=1"]) "GET" None false.

Definition illegal_name_event : Event :=
  mkEvent "/" "" [("host", Some "example.com"); ("bad name", Some "x")]
          None "GET" None false.

Definition hostless_event : Event :=
  mkEvent "/cart" "id=7" [("accept", Some "text/html")] None "GET" None false.

Definition port_event : Event :=
  mkEvent "/cart" "" [("host", Some "Example.com:8080")] None "GET" None false.

(** The characters of a plain host name. *)
Definition hostname_char (c : ascii) : bool :=
  URL.ascii_alpha c || URL.ascii_digit c || URL.is_in [45]%N c || URL.is_in [46]%N c.

(** Events whose path starts with two slashes, and whose host header has a
    port that is no port. *)
Definition double_slash_query_event : Event :=
  mkEvent "//Evil.example/cart" "id=7"
          [("x-forwarded-host", Some "shop.example.com"); ("host", Some "internal.example")]
          None "GET" None false.

Definition big_port_event : Event :=
  mkEvent "/cart" "" [("host", Some "example.com:65536")] None "GET" None false.

Definition default_port_event : Event :=
  mkEvent "/cart" "" [("host", Some "example.com:0443")] None "GET" None false.

Definition dots_event : Event :=
  mkEvent "/a/./b/%2E%2e/c/.." "" [("host", Some "example.com")] None "GET" None false.

(** What [get] answers for a list of values. *)
Definition joined (values : list string) : option string :=
  match values with
  | [] => None
  | _ => Some (JS.join ", " values)
  end.

(** * Properties *)

(** ** Strings *)

Lemma string_app_cons (x : ascii) (a b : string) : String x a +:+ b = String x (a +:+ b).
Proof. reflexivity. Qed.

Lemma string_app_nil_l (a : string) : "" +:+ a = a.
Proof. reflexivity. Qed.

Lemma string_app_assoc (a b c : string) : (a +:+ b) +:+ c = a +:+ (b +:+ c).
Proof.
  induction a as [|x a IH]; [reflexivity|].
  rewrite !string_app_cons. by f_equal.
Qed.

Lemma string_app_nil_r (a : string) : a +:+ "" = a.
Proof.
  induction a as [|x a IH]; [reflexivity|].
  rewrite string_app_cons. by f_equal.
Qed.

Lemma eqb_true (a b : string) : String.eqb a b = true <-> a = b.
Proof. apply String.eqb_eq. Qed.

Lemma eqb_false (a b : string) : String.eqb a b = false <-> a <> b.
Proof. apply String.eqb_neq. Qed.

Lemma lower_char_idem (c : ascii) : JS.lower_char (JS.lower_char c) = JS.lower_char c.
Proof. destruct c as [[] [] [] [] [] [] [] []]; reflexivity. Qed.

Lemma toLowerCase_idem (s : string) : JS.toLowerCase (JS.toLowerCase s) = JS.toLowerCase s.
Proof. induction s as [|c s IH]; simpl; [reflexivity | by rewrite lower_char_idem, IH]. Qed.

Lemma all_chars_app (p : ascii -> bool) (a b : string) :
  JS.all_chars p (a +:+ b) = JS.all_chars p a && JS.all_chars p b.
Proof.
  induction a as [|x a IH]; [reflexivity|].
  rewrite string_app_cons. simpl. by rewrite IH, andb_assoc.
Qed.

Lemma all_chars_impl (p q : ascii -> bool) (s : string) :
  (forall c, p c = true -> q c = true) -> JS.all_chars p s = true -> JS.all_chars q s = true.
Proof.
  intros Hpq. induction s as [|c s IH]; simpl; [done|].
  intros [Hc Hs]%andb_prop. rewrite (Hpq _ Hc), (IH Hs). done.
Qed.

(** ** Objects *)

Section object.
Context {V : Type}.
Implicit Types (o : JS.object V) (k : string) (v : V).

Lemma get_prop_None o k : JS.get_prop o k = None <-> k ∉ o.*1.
Proof.
  induction o as [|[k' v'] o IH]; simpl.
  - split; [intros _; apply not_elem_of_nil | done].
  - destruct (String.eqb k' k) eqn:E.
    + apply eqb_true in E as ->. split; [done | intros H; exfalso; apply H; left].
    + apply eqb_false in E. rewrite IH, not_elem_of_cons.
      split; [intros H; split; [congruence | done] | by intros [_ H]].
Qed.

Lemma get_prop_set_eq o k v : JS.get_prop (JS.set_prop o k v) k = Some v.
Proof.
  induction o as [|[k' v'] o IH]; simpl.
  - by rewrite String.eqb_refl.
  - destruct (String.eqb k' k) eqn:E; simpl; rewrite E; done.
Qed.

Lemma get_prop_set_ne o k k' v :
  k <> k' -> JS.get_prop (JS.set_prop o k v) k' = JS.get_prop o k'.
Proof.
  intros Hne. induction o as [|[k0 v0] o IH]; simpl.
  - apply eqb_false in Hne. by rewrite Hne.
  - destruct (String.eqb k0 k) eqn:E; simpl; [|by rewrite IH].
    apply eqb_true in E as ->. apply eqb_false in Hne. by rewrite Hne.
Qed.

Lemma get_prop_delete_ne o k k' :
  k <> k' -> JS.get_prop (JS.delete_prop o k) k' = JS.get_prop o k'.
Proof.
  intros Hne. induction o as [|[k0 v0] o IH]; simpl; [done|].
  destruct (String.eqb k0 k) eqn:E; simpl; [|by rewrite IH].
  apply eqb_true in E as ->. apply eqb_false in Hne. by rewrite Hne.
Qed.

Lemma keys_set_prop o k v :
  (JS.set_prop o k v).*1 = if bool_decide (k ∈ o.*1) then o.*1 else o.*1 ++ [k].
Proof.
  induction o as [|[k0 v0] o IH]; simpl; [done|].
  destruct (String.eqb k0 k) eqn:E; simpl.
  - apply eqb_true in E as ->. rewrite bool_decide_eq_true_2; [done | left].
  - apply eqb_false in E. fold (fmap (M:=list) (@fst string V)). rewrite IH.
    case_bool_decide as H1; case_bool_decide as H2; try done.
    + exfalso. apply H2. by right.
    + exfalso. apply elem_of_cons in H2 as [->|]; done.
Qed.

Lemma keys_delete_prop o k : (JS.delete_prop o k).*1 ⊆ o.*1.
Proof.
  induction o as [|[k0 v0] o IH]; simpl; [done|].
  destruct (String.eqb k0 k); simpl.
  - intros x Hx. by right.
  - intros x [->|Hx]%elem_of_cons; [left | right; by apply IH].
Qed.

End object.

(** ** Headers *)

Lemma find_None (h : Headers.t) (name : string) :
  Headers.find h name = None <->
  Forall (fun k => JS.toLowerCase k <> JS.toLowerCase name) h.*1.
Proof.
  induction h as [|[k vs] h IH]; simpl.
  - split; [constructor | done].
  - destruct (String.eqb _ _) eqn:E.
    + apply eqb_true in E. split; [done | by intros [? _]%Forall_cons].
    + apply eqb_false in E. rewrite IH, Forall_cons. tauto.
Qed.

Lemma find_Some (h : Headers.t) (name key : string) :
  Headers.find h name = Some key ->
  JS.toLowerCase key = JS.toLowerCase name /\ key ∈ h.*1.
Proof.
  induction h as [|[k vs] h IH]; simpl; [done|].
  destruct (String.eqb _ _) eqn:E.
  - apply eqb_true in E. intros [= <-]. split; [done | left].
  - intros [? ?]%IH. split; [done | by right].
Qed.

Lemma find_delete_ne (h : Headers.t) (key name : string) :
  JS.toLowerCase key <> JS.toLowerCase name ->
  Headers.find (JS.delete_prop h key) name = Headers.find h name.
Proof.
  intros Hne. induction h as [|[k vs] h IH]; simpl; [done|].
  destruct (String.eqb k key) eqn:E; simpl.
  - apply eqb_true in E as ->. apply eqb_false in Hne. by rewrite Hne.
  - by rewrite IH.
Qed.

Lemma find_set_ne (h : Headers.t) (key name : string) (vs : list string) :
  JS.toLowerCase key <> JS.toLowerCase name ->
  Headers.find (JS.set_prop h key vs) name = Headers.find h name.
Proof.
  intros Hne. induction h as [|[k vs'] h IH]; simpl.
  - apply eqb_false in Hne. by rewrite Hne.
  - destruct (String.eqb k key) eqn:E; simpl; [done | by rewrite IH].
Qed.

Lemma wf_well_formed (h : Headers.t) : Headers.wf h = true <-> well_formed h.
Proof.
  unfold well_formed. induction h as [|[k vs] h IH]; simpl.
  - split; [intros _; split; constructor | done].
  - rewrite !andb_true_iff, IH, negb_true_iff, bool_decide_eq_false.
    rewrite NoDup_cons, Forall_cons, forallb_forall; simpl.
    rewrite list_elem_of_fmap.
    split.
    + intros [[Hvs Hk] [Hnd Hne]]. repeat split; try done.
      intros (k' & Hk' & [[k'' vs''] [-> Hin]]%list_elem_of_fmap).
      apply list_elem_of_In, Hk in Hin. simpl in Hin.
      apply negb_true_iff, eqb_false in Hin. done.
    + intros [[Hk Hnd] [Hvs Hne]]. repeat split; try done.
      intros [k' vs'] Hin%list_elem_of_In. simpl.
      apply negb_true_iff, eqb_false. intros Heq. apply Hk.
      exists k'. split; [done|]. apply list_elem_of_fmap. by exists (k', vs').
Qed.

Lemma well_formed_keys_inj (h : Headers.t) (k1 k2 : string) :
  well_formed h -> k1 ∈ h.*1 -> k2 ∈ h.*1 ->
  JS.toLowerCase k1 = JS.toLowerCase k2 -> k1 = k2.
Proof.
  intros [Hnd _]. induction h as [|[k vs] h IH]; simpl in *.
  - by intros ?%elem_of_nil.
  - apply NoDup_cons in Hnd as [Hk Hnd].
    intros [->|H1]%elem_of_cons [->|H2]%elem_of_cons Heq; auto.
    + destruct Hk. rewrite Heq. by apply list_elem_of_fmap_2.
    + destruct Hk. rewrite <- Heq. by apply list_elem_of_fmap_2.
Qed.

Lemma well_formed_delete (h : Headers.t) (key : string) :
  well_formed h -> well_formed (JS.delete_prop h key).
Proof.
  intros [Hnd Hne]. induction h as [|[k vs] h IH]; simpl in *; [done|].
  apply NoDup_cons in Hnd as [Hk Hnd]. apply Forall_cons in Hne as [Hvs Hne].
  destruct (String.eqb k key); [done|].
  destruct (IH Hnd Hne) as [IH1 IH2]. split; simpl.
  - apply NoDup_cons. split; [|done].
    intros (k' & Hk' & Hin)%list_elem_of_fmap. apply Hk.
    apply list_elem_of_fmap. exists k'. split; [done|].
    by apply (keys_delete_prop h key).
  - by apply Forall_cons.
Qed.

Lemma well_formed_set_prop (h : Headers.t) (name : string) (values : list string) :
  well_formed h -> values <> [] ->
  well_formed (JS.set_prop h (default name (Headers.find h name)) values).
Proof.
  intros [Hnd Hne] Hvalues. induction h as [|[k vs] h IH]; simpl in *.
  - split; [apply NoDup_singleton | by repeat constructor].
  - apply NoDup_cons in Hnd as [Hk Hnd]. apply Forall_cons in Hne as [Hvs Hne].
    destruct (String.eqb (JS.toLowerCase k) (JS.toLowerCase name)) eqn:E; simpl.
    + rewrite String.eqb_refl. split; simpl.
      * by apply NoDup_cons.
      * by apply Forall_cons.
    + destruct (IH Hnd Hne) as [IH1 IH2]. apply eqb_false in E.
      assert (k <> default name (Headers.find h name)) as Hk'.
      { intros ->. destruct (Headers.find h name) eqn:F; simpl in *; [|done].
        apply find_Some in F as [F _]. done. }
      apply eqb_false in Hk'. rewrite Hk'. split; simpl.
      * apply NoDup_cons. split; [|done].
        rewrite keys_set_prop. case_bool_decide; [done|].
        rewrite fmap_app, elem_of_app. intros [?|Hin]; [done|].
        apply list_elem_of_singleton in Hin.
        destruct (Headers.find h name) eqn:F; simpl in *; [|done].
        apply find_Some in F as [F _]. congruence.
      * by apply Forall_cons.
Qed.

Lemma well_formed_empty : well_formed Headers.empty.
Proof. split; constructor. Qed.

Lemma well_formed_set (h : Headers.t) (name value : string) :
  well_formed h ->
  well_formed (JS.set_prop h (default name (Headers.find h name)) [value]).
Proof. intros Hwf. by apply well_formed_set_prop. Qed.

(** ** Cookies of the response *)

Lemma push_all_app (cookies values : list string) :
  push_all cookies values = cookies ++ values.
Proof.
  unfold push_all. revert cookies.
  induction values as [|v vs IH]; intros cookies; simpl.
  - by rewrite app_nil_r.
  - by rewrite IH, <- app_assoc.
Qed.

Lemma collect_cookies_values (raw : JS.object (list string)) :
  collect_cookies raw = set_cookie_values raw.
Proof.
  unfold collect_cookies, set_cookie_values.
  enough (forall acc,
    foldl (fun cookies kv =>
             if String.eqb (JS.toLowerCase kv.1) "set-cookie"
             then push_all cookies kv.2 else cookies) acc raw
    = acc ++ (raw ≫= fun kv =>
                if String.eqb (JS.toLowerCase kv.1) "set-cookie" then kv.2 else []))
    as H by apply (H []).
  induction raw as [|[k vs] raw IH]; intros acc; simpl.
  - by rewrite app_nil_r.
  - rewrite IH. destruct (String.eqb _ _).
    + by rewrite push_all_app, app_assoc.
    + done.
Qed.

Lemma set_cookie_values_nil (h : Headers.t) :
  well_formed h -> set_cookie_values h = [] -> Headers.find h "set-cookie" = None.
Proof.
  intros [_ Hne]. unfold set_cookie_values.
  induction h as [|[k vs] h IH]; simpl; [done|].
  apply Forall_cons in Hne as [Hvs Hne]. simpl in Hvs.
  change (JS.toLowerCase "set-cookie") with "set-cookie".
  destruct (String.eqb _ _).
  - intros [? _]%app_eq_nil. done.
  - simpl. by apply IH.
Qed.

(** ** The header mapping of the reply *)

Lemma elem_of_insert_sorted (k x : string) (l : list string) :
  x ∈ Headers.insert_sorted k l <-> x = k \/ x ∈ l.
Proof.
  induction l as [|k' l IH]; simpl.
  - rewrite list_elem_of_singleton. split; [by left | intros [?|?%elem_of_nil]; done].
  - destruct (String.leb k k').
    + by rewrite elem_of_cons.
    + rewrite !elem_of_cons, IH. tauto.
Qed.

Lemma elem_of_sort (x : string) (l : list string) : x ∈ Headers.sort l <-> x ∈ l.
Proof.
  unfold Headers.sort. induction l as [|k l IH]; simpl; [done|].
  by rewrite elem_of_insert_sorted, IH, elem_of_cons.
Qed.

Lemma fromEntries_snoc (l : list (string * string)) (k v : string) :
  Object_fromEntries (l ++ [(k, v)]) = <[k := v]> (Object_fromEntries l).
Proof. unfold Object_fromEntries. by rewrite foldl_app. Qed.

Lemma fromEntries_None (l : list (string * string)) (k : string) :
  k ∉ l.*1 -> Object_fromEntries l !! k = None.
Proof.
  induction l as [|[k' v'] l IH] using rev_ind; intros Hk.
  - apply lookup_empty.
  - rewrite fmap_app, not_elem_of_app in Hk. destruct Hk as [Hk Hk'].
    rewrite fromEntries_snoc, lookup_insert_ne; [by apply IH|].
    intros ->. apply Hk'. simpl. left.
Qed.

Lemma fromEntries_Some (l : list (string * string)) (k v : string) :
  k ∈ l.*1 -> (forall v', (k, v') ∈ l -> v' = v) -> Object_fromEntries l !! k = Some v.
Proof.
  induction l as [|[k' v'] l IH] using rev_ind; intros Hk Hv.
  - by apply elem_of_nil in Hk.
  - rewrite fromEntries_snoc. destruct (decide (k' = k)) as [->|Hne].
    + rewrite lookup_insert_eq. f_equal. apply Hv, elem_of_app. right. left.
    + rewrite lookup_insert_ne by done. apply IH.
      * rewrite fmap_app, elem_of_app in Hk. destruct Hk as [|Hk]; [done|].
        simpl in Hk. apply list_elem_of_singleton in Hk. congruence.
      * intros v'' Hin. apply Hv, elem_of_app. by left.
Qed.

Lemma elem_of_entries (h : Headers.t) (k v : string) :
  (k, v) ∈ Headers.entries h <->
  exists key, key ∈ h.*1 /\ k = JS.toLowerCase key
              /\ v = JS.join ", " (default [] (JS.get_prop h key)).
Proof.
  unfold Headers.entries. rewrite list_elem_of_fmap. split.
  - intros (key & Heq & Hin). simpl in Heq.
    apply (proj1 (elem_of_sort _ _)) in Hin.
    injection Heq as -> ->. by exists key.
  - intros (key & Hin & -> & ->). exists key. split; [done | by apply elem_of_sort].
Qed.

Lemma reply_lookup_None (h : Headers.t) (k : string) :
  (forall key, key ∈ h.*1 -> JS.toLowerCase key <> k) ->
  Object_fromEntries (Headers.entries h) !! k = None.
Proof.
  intros Hk. apply fromEntries_None.
  intros ([k' v] & -> & (key & Hin & Hkey & _)%elem_of_entries)%list_elem_of_fmap.
  simpl in Hk. by apply (Hk key).
Qed.

Lemma reply_lookup_Some (h : Headers.t) (key : string) (values : list string) :
  well_formed h -> JS.get_prop h key = Some values ->
  Object_fromEntries (Headers.entries h) !! JS.toLowerCase key
  = Some (JS.join ", " values).
Proof.
  intros Hwf Hget.
  assert (key ∈ h.*1) as Hin.
  { destruct (decide (key ∈ h.*1)) as [|Hn]; [done|].
    apply get_prop_None in Hn. congruence. }
  apply fromEntries_Some.
  - apply list_elem_of_fmap. exists (JS.toLowerCase key, JS.join ", " values).
    split; [done|]. apply elem_of_entries. exists key. by rewrite Hget.
  - intros v' (key' & Hin' & Hlow & ->)%elem_of_entries.
    rewrite <- (well_formed_keys_inj h key key' Hwf Hin Hin' Hlow). by rewrite Hget.
Qed.

(** ** The body stream *)

Lemma settled_stays (st : listeners) (s : Stream) (c : completion Buffer) :
  settled st = Some c -> settled (foldl on_event st s) = Some c.
Proof.
  revert st. induction s as [|ev s IH]; intros st Hst; simpl; [done|].
  apply IH. destruct ev; simpl; by rewrite ?Hst.
Qed.

Lemma drain_data (acc : list Buffer) (cs : list Buffer) (s : Stream) :
  foldl on_event (mkListeners acc None) ((Data <$> cs) ++ s)
  = foldl on_event (mkListeners (acc ++ cs) None) s.
Proof.
  revert acc. induction cs as [|c cs IH]; intros acc; simpl.
  - by rewrite app_nil_r.
  - by rewrite IH, <- app_assoc.
Qed.

Lemma bufferStream_end (cs : list Buffer) (rest : Stream) :
  bufferStream (StreamBody ((Data <$> cs) ++ End :: rest)) = Normal (Buffer_concat cs).
Proof.
  unfold bufferStream, outcome. rewrite drain_data. simpl.
  by rewrite (settled_stays _ _ (Normal (Buffer_concat cs))).
Qed.

Lemma bufferStream_error (cs : list Buffer) (rest : Stream) :
  bufferStream (StreamBody ((Data <$> cs) ++ Error :: rest)) = Abrupt StreamError.
Proof.
  unfold bufferStream, outcome. rewrite drain_data. simpl.
  by rewrite (settled_stays _ _ (Abrupt StreamError)).
Qed.

Lemma bufferStream_aborted (cs : list Buffer) (rest : Stream) :
  bufferStream (StreamBody ((Data <$> cs) ++ Aborted :: rest)) = Abrupt AbortError.
Proof.
  unfold bufferStream, outcome. rewrite drain_data. simpl.
  by rewrite (settled_stays _ _ (Abrupt AbortError)).
Qed.

Lemma bufferStream_open (cs : list Buffer) :
  bufferStream (StreamBody (Data <$> cs)) = Abrupt Unsettled.
Proof.
  unfold bufferStream, outcome. rewrite <- (app_nil_r (Data <$> cs)), drain_data. done.
Qed.

(** A stream is a run of chunks that stops at its first [End] or error, or
    does not stop. *)
Lemma stream_shape (s : Stream) :
  exists cs, s = Data <$> cs
             \/ (exists rest, s = (Data <$> cs) ++ End :: rest)
             \/ (exists rest, s = (Data <$> cs) ++ Error :: rest)
             \/ (exists rest, s = (Data <$> cs) ++ Aborted :: rest).
Proof.
  induction s as [|ev s [cs IH]].
  - exists []. by left.
  - destruct ev as [c| | |].
    + exists (c :: cs). destruct IH as [->|[[rest ->]|[[rest ->]|[rest ->]]]];
        [by left | right; left; by exists rest | right; right; left; by exists rest
        | right; right; right; by exists rest].
    + exists []. right. left. by exists s.
    + exists []. right. right. left. by exists s.
    + exists []. right. right. right. by exists s.
Qed.

Lemma bufferStream_Normal (s : Stream) (b : Buffer) :
  bufferStream (StreamBody s) = Normal b <->
  exists cs rest, s = (Data <$> cs) ++ End :: rest /\ b = Buffer_concat cs.
Proof.
  split.
  - destruct (stream_shape s) as [cs [->|[[rest ->]|[[rest ->]|[rest ->]]]]].
    + by rewrite bufferStream_open.
    + rewrite bufferStream_end. intros [= <-]. by exists cs, rest.
    + by rewrite bufferStream_error.
    + by rewrite bufferStream_aborted.
  - intros (cs & rest & -> & ->). apply bufferStream_end.
Qed.

(** Two shapes of a stream on which [bufferStream] settles differently are
    not the same stream. *)
Local Ltac clash H :=
  apply (f_equal (fun s => bufferStream (StreamBody s))) in H; cbv beta in H;
  rewrite ?bufferStream_open, ?bufferStream_end, ?bufferStream_error,
    ?bufferStream_aborted in H;
  discriminate H.

Lemma bufferStream_Abrupt (s : Stream) (k : abrupt) :
  bufferStream (StreamBody s) = Abrupt k <->
  ((exists cs rest, s = (Data <$> cs) ++ Error :: rest) /\ k = StreamError)
  \/ ((exists cs rest, s = (Data <$> cs) ++ Aborted :: rest) /\ k = AbortError)
  \/ ((exists cs, s = Data <$> cs) /\ k = Unsettled).
Proof.
  destruct (stream_shape s) as [cs [->|[[rest ->]|[[rest ->]|[rest ->]]]]].
  - rewrite bufferStream_open. split.
    + intros [= <-]. right. right. split; [by exists cs | done].
    + intros [[(cs' & rest & H) _]|[[(cs' & rest & H) _]|[_ ->]]];
        [clash H | clash H | done].
  - rewrite bufferStream_end. split; [done|].
    intros [[(cs' & rest' & H) _]|[[(cs' & rest' & H) _]|[[cs' H] _]]]; clash H.
  - rewrite bufferStream_error. split.
    + intros [= <-]. left. split; [by exists cs, rest | done].
    + intros [[_ ->]|[[(cs' & rest' & H) _]|[[cs' H] _]]];
        [done | clash H | clash H].
  - rewrite bufferStream_aborted. split.
    + intros [= <-]. right. left. split; [by exists cs, rest | done].
    + intros [[(cs' & rest' & H) _]|[[_ ->]|[[cs' H] _]]];
        [clash H | done | clash H].
Qed.

(** A body that [bufferStream] drains is a stream. *)
Lemma bufferStream_stream (body : Body) (b : Buffer) :
  bufferStream body = Normal b -> exists s, body = StreamBody s.
Proof. destruct body as [| |s]; [done..|]. by exists s. Qed.

(** ** The text of the response *)

Lemma consume_simulates (s : Stream) (st st' : listeners) :
  chunks st' = chunks st ->
  settled st' = wrapped <$> settled st ->
  chunks (foldl on_body_event st' s) = chunks (foldl on_event st s)
  /\ settled (foldl on_body_event st' s) = wrapped <$> settled (foldl on_event st s).
Proof.
  revert st st'. induction s as [|ev s IH]; intros st st' Hc Hs; simpl; [done|].
  apply IH.
  - destruct ev; simpl; by rewrite ?Hc.
  - destruct ev; simpl; rewrite ?Hc, Hs; by destruct (settled st).
Qed.

Lemma consumeBody_stream (s : Stream) :
  consumeBody (StreamBody s) = wrapped (bufferStream (StreamBody s)).
Proof.
  unfold consumeBody, bufferStream, outcome.
  destruct (consume_simulates s (mkListeners [] None) (mkListeners [] None)) as [_ ->];
    [done..|].
  by destruct (settled _).
Qed.

Lemma consumeBody_Abrupt (s : Stream) (k : abrupt) :
  consumeBody (StreamBody s) = Abrupt k <->
  ((exists cs rest, s = (Data <$> cs) ++ Error :: rest) /\ k = FetchError)
  \/ ((exists cs rest, s = (Data <$> cs) ++ Aborted :: rest) /\ k = AbortError)
  \/ ((exists cs, s = Data <$> cs) /\ k = Unsettled).
Proof.
  rewrite consumeBody_stream.
  destruct (stream_shape s) as [cs [->|[[rest ->]|[[rest ->]|[rest ->]]]]].
  - rewrite bufferStream_open. split.
    + intros [= <-]. right. right. split; [by exists cs | done].
    + intros [[(cs' & rest & H) _]|[[(cs' & rest & H) _]|[_ ->]]];
        [clash H | clash H | done].
  - rewrite bufferStream_end. split; [done|].
    intros [[(cs' & rest' & H) _]|[[(cs' & rest' & H) _]|[[cs' H] _]]]; clash H.
  - rewrite bufferStream_error. split.
    + intros [= <-]. left. split; [by exists cs, rest | done].
    + intros [[_ ->]|[[(cs' & rest' & H) _]|[[cs' H] _]]];
        [done | clash H | clash H].
  - rewrite bufferStream_aborted. split.
    + intros [= <-]. right. left. split; [by exists cs, rest | done].
    + intros [[(cs' & rest' & H) _]|[[_ ->]|[[cs' H] _]]];
        [clash H | done | clash H].
Qed.

(** A body that [bufferStream] drains has the drained buffer for text. *)
Lemma Response_text_drained (response : NodeResponse) (buffer : Buffer) :
  bufferStream (body response) = Normal buffer ->
  Response_text response = Normal (Utf8 buffer).
Proof.
  unfold Response_text. intros Hbody.
  destruct (bufferStream_stream _ _ Hbody) as [s Hs]. rewrite Hs in *.
  by rewrite consumeBody_stream, Hbody.
Qed.

Lemma body_string_drained (isBinary : bool) (response : NodeResponse) (buffer : Buffer) :
  bufferStream (body response) = Normal buffer ->
  body_string isBinary response = Normal (Utf8 buffer).
Proof.
  intros Hbody. unfold body_string. destruct isBinary.
  - by rewrite Hbody.
  - by apply Response_text_drained.
Qed.

(** ** The headers when the reply is built *)

Lemma delete_set_cookie (h : Headers.t) :
  Headers.delete h "set-cookie"
  = Normal (match Headers.find h "set-cookie" with
            | Some key => JS.delete_prop h key
            | None => h
            end).
Proof. unfold Headers.delete. by destruct (Headers.find h "set-cookie"). Qed.

Lemma set_connection (h : Headers.t) :
  Headers.set h "Connection" "close"
  = Normal (JS.set_prop h (default "Connection" (Headers.find h "Connection")) ["close"]).
Proof. reflexivity. Qed.

Lemma get_content_type (h : Headers.t) :
  Headers.get h "content-type"
  = Normal (match Headers.find h "content-type" with
            | Some key => JS.join ", " <$> JS.get_prop h key
            | None => None
            end).
Proof.
  unfold Headers.get. destruct (Headers.find h "content-type") as [key|]; [|done].
  by destruct (JS.get_prop h key).
Qed.

Lemma lower_ne (k1 k2 : string) :
  JS.toLowerCase k1 <> JS.toLowerCase k2 -> k1 <> k2.
Proof. congruence. Qed.

Lemma find_get_delete_ne (h : Headers.t) (name name' : string) :
  JS.toLowerCase name <> JS.toLowerCase name' ->
  forall key, Headers.find h name = Some key ->
  Headers.find (JS.delete_prop h key) name' = Headers.find h name'
  /\ forall key', Headers.find h name' = Some key' ->
     JS.get_prop (JS.delete_prop h key) key' = JS.get_prop h key'.
Proof.
  intros Hne key [Hkey _]%find_Some. split.
  - apply find_delete_ne. congruence.
  - intros key' [Hkey' _]%find_Some. apply get_prop_delete_ne, lower_ne. congruence.
Qed.

Lemma find_get_set_ne (h : Headers.t) (name name' : string) (vs : list string) :
  JS.toLowerCase name <> JS.toLowerCase name' ->
  let key := default name (Headers.find h name) in
  Headers.find (JS.set_prop h key vs) name' = Headers.find h name'
  /\ forall key', Headers.find h name' = Some key' ->
     JS.get_prop (JS.set_prop h key vs) key' = JS.get_prop h key'.
Proof.
  intros Hne key.
  assert (JS.toLowerCase key = JS.toLowerCase name) as Hkey.
  { unfold key. destruct (Headers.find h name) eqn:F; [|done].
    by apply find_Some in F as [? _]. }
  split.
  - apply find_set_ne. congruence.
  - intros key' [Hkey' _]%find_Some. apply get_prop_set_ne, lower_ne. congruence.
Qed.

Lemma final_headers_Normal (response : NodeResponse) (a : AbortController) :
  exists h, final_headers response a = Normal h.
Proof.
  unfold final_headers. rewrite delete_set_cookie.
  destruct (negb _); simpl; destruct (aborted a); rewrite ?set_connection; by eexists.
Qed.

Lemma final_headers_content_type (response : NodeResponse) (a : AbortController)
    (h : Headers.t) :
  final_headers response a = Normal h ->
  Headers.get h "content-type" = Headers.get (headers response) "content-type".
Proof.
  unfold final_headers. rewrite delete_set_cookie, !get_content_type.
  set (h0 := headers response).
  set (h1 := if negb _ then _ else _).
  assert (exists h1', h1 = Normal h1'
          /\ Headers.find h1' "content-type" = Headers.find h0 "content-type"
          /\ forall key', Headers.find h0 "content-type" = Some key' ->
                          JS.get_prop h1' key' = JS.get_prop h0 key')
    as (h1' & -> & Hfind1 & Hget1).
  { unfold h1. destruct (negb _); [|by exists h0].
    destruct (Headers.find h0 "set-cookie") as [key|] eqn:F; [|by exists h0].
    exists (JS.delete_prop h0 key).
    destruct (find_get_delete_ne h0 "set-cookie" "content-type") with key; done. }
  simpl. destruct (aborted a).
  - rewrite set_connection. intros [= <-].
    destruct (find_get_set_ne h1' "Connection" "content-type" ["close"])
      as [Hfind2 Hget2]; [done|].
    rewrite Hfind2, Hfind1. destruct (Headers.find h0 "content-type") as [key'|] eqn:F;
      [|done].
    rewrite Hget2, Hget1; by rewrite ?Hfind1.
  - intros [= <-]. rewrite Hfind1.
    destruct (Headers.find h0 "content-type") as [key'|] eqn:F; [|done].
    by rewrite Hget1.
Qed.

Lemma well_formed_delete_find (h : Headers.t) (name key : string) :
  well_formed h -> Headers.find h name = Some key ->
  Headers.find (JS.delete_prop h key) name = None.
Proof.
  intros [Hnd _]. induction h as [|[k vs] h IH]; simpl in *; [done|].
  apply NoDup_cons in Hnd as [Hk Hnd].
  destruct (String.eqb (JS.toLowerCase k) (JS.toLowerCase name)) eqn:E.
  - intros [= <-]. rewrite String.eqb_refl. apply eqb_true in E.
    apply find_None, Forall_forall. intros k' Hin Heq. apply Hk.
    rewrite E, <- Heq. by apply list_elem_of_fmap_2.
  - intros F. pose proof (find_Some _ _ _ F) as [Hkey _].
    apply eqb_false in E.
    assert (k <> key) as Hne by (apply lower_ne; congruence).
    apply eqb_false in Hne. rewrite Hne. simpl.
    apply eqb_false in E. rewrite E. by apply IH.
Qed.

(** With the invariant, the headers of the reply have no [Set-Cookie] left
    and still have the invariant. *)
Lemma final_headers_no_set_cookie (response : NodeResponse) (a : AbortController)
    (h : Headers.t) :
  well_formed (headers response) ->
  final_headers response a = Normal h ->
  Headers.find h "set-cookie" = None /\ well_formed h.
Proof.
  intros Hwf. unfold final_headers. rewrite delete_set_cookie.
  set (h0 := headers response) in *.
  set (h1 := if negb _ then _ else _).
  assert (exists h1', h1 = Normal h1' /\ Headers.find h1' "set-cookie" = None
                      /\ well_formed h1') as (h1' & -> & Hfind & Hwf1).
  { unfold h1. destruct (length _ =? 0)%nat eqn:E; simpl.
    - exists h0. split; [done|]. split; [|done].
      apply Nat.eqb_eq, nil_length_inv in E.
      apply set_cookie_values_nil; [done|]. by rewrite <- collect_cookies_values.
    - destruct (Headers.find h0 "set-cookie") as [key|] eqn:F; [|by exists h0].
      exists (JS.delete_prop h0 key). split; [done|]. split.
      + by apply well_formed_delete_find.
      + by apply well_formed_delete. }
  simpl. destruct (aborted a).
  - rewrite set_connection. intros [= <-]. split.
    + destruct (find_get_set_ne h1' "Connection" "set-cookie" ["close"]) as [-> _]; done.
    + by apply well_formed_set.
  - by intros [= <-].
Qed.

(** With the invariant, an aborted signal leaves one [Connection] entry,
    whose only value is [close]. *)
Lemma final_headers_connection (response : NodeResponse) (a : AbortController)
    (h : Headers.t) :
  aborted a = true ->
  final_headers response a = Normal h ->
  exists key, JS.toLowerCase key = "connection" /\ JS.get_prop h key = Some ["close"].
Proof.
  intros Ha. unfold final_headers. rewrite delete_set_cookie, Ha.
  destruct (negb _); simpl; rewrite set_connection; intros [= <-].
  all: match goal with
       | |- context [Headers.find ?h0 "Connection"] =>
           exists (default "Connection" (Headers.find h0 "Connection"));
           split; [|apply get_prop_set_eq];
           destruct (Headers.find h0 "Connection") eqn:F; [|done];
           by apply find_Some in F as [? _]
       end.
Qed.

(** ** [sendRemixResponse], step by step *)

Lemma bind_Normal {A B : Type} (a : A) (f : A -> completion B) :
  (Normal a ≫= f) = f a.
Proof. reflexivity. Qed.

Lemma bind_Abrupt {A B : Type} (c : completion A) (f : A -> B) (k : abrupt) :
  (c ≫= fun x => Normal (f x)) = Abrupt k <-> c = Abrupt k.
Proof. destruct c as [x|k']; [done|]. split; intros [= ->]; reflexivity. Qed.

Lemma sendRemixResponse_eq (binaryTypes : list string) (response : NodeResponse)
    (a : AbortController) :
  exists h contentType,
    final_headers response a = Normal h
    /\ Headers.get (headers response) "content-type" = Normal contentType
    /\ sendRemixResponse binaryTypes response a
       = (text ← body_string (classify binaryTypes contentType) response;
          Normal (mkReply (status response)
                          (Object_fromEntries (Headers.entries h))
                          (collect_cookies (Headers.raw (headers response)))
                          text
                          (classify binaryTypes contentType))).
Proof.
  destruct (final_headers_Normal response a) as [h Hh].
  pose proof (final_headers_content_type _ _ _ Hh) as Hct.
  eexists h, _. split; [done|]. split; [apply get_content_type|].
  assert (sendRemixResponse binaryTypes response a
          = (h ← final_headers response a;
             contentType ← Headers.get h "content-type";
             body ← (if classify binaryTypes contentType
                     then buffer ← bufferStream (body response); Normal (Utf8 buffer)
                     else Response_text response);
             Normal (mkReply (status response) (Object_fromEntries (Headers.entries h))
                             (collect_cookies (Headers.raw (headers response))) body
                             (classify binaryTypes contentType)))) as ->.
  { unfold sendRemixResponse, final_headers. by destruct (if negb _ then _ else _). }
  by rewrite Hh, bind_Normal, Hct, get_content_type, bind_Normal.
Qed.

(** A reply is made once the body is drained. *)
Lemma sendRemixResponse_drained (binaryTypes : list string) (response : NodeResponse)
    (a : AbortController) (buffer : Buffer) :
  bufferStream (body response) = Normal buffer ->
  exists h contentType,
    final_headers response a = Normal h
    /\ Headers.get (headers response) "content-type" = Normal contentType
    /\ sendRemixResponse binaryTypes response a
       = Normal (mkReply (status response)
                         (Object_fromEntries (Headers.entries h))
                         (collect_cookies (Headers.raw (headers response)))
                         (Utf8 buffer)
                         (classify binaryTypes contentType)).
Proof.
  intros Hbody.
  destruct (sendRemixResponse_eq binaryTypes response a) as (h & ct & Hh & Hct & ->).
  exists h, ct. by rewrite (body_string_drained _ _ _ Hbody).
Qed.

(** * The reply *)

Lemma set_cookie_values_cons (k : string) (vs : list string) (h : Headers.t) :
  set_cookie_values ((k, vs) :: h)
  = (if String.eqb (JS.toLowerCase k) "set-cookie" then vs else [])
      ++ set_cookie_values h.
Proof. reflexivity. Qed.

Lemma set_cookie_values_none (h : Headers.t) :
  Headers.find h "set-cookie" = None -> set_cookie_values h = [].
Proof.
  induction h as [|[k vs] h IH]; [done|].
  rewrite set_cookie_values_cons. simpl.
  change (JS.toLowerCase "set-cookie") with "set-cookie".
  destruct (String.eqb _ _); [done | exact IH].
Qed.







(** C7: a response that is classified as binary and whose body is no
    stream (node-fetch holds it as a Buffer, or there is none) gets no
    reply: [bufferStream] calls [on] on a value that has no such method and
    [sendRemixResponse] rejects with a TypeError instead of answering with
    the bytes of the body as a string.  The same body is answered, with
    those bytes as its text, when the response is not classified as binary:
    [text] reads it. *)
Theorem C7_binary_body_no_stream (binaryTypes : list string) (response : NodeResponse)
    (a : AbortController) (contentType : option string) :
  Headers.get (headers response) "content-type" = Normal contentType ->
  (forall s, body response <> StreamBody s) ->
  (classify binaryTypes contentType = true ->
   sendRemixResponse binaryTypes response a = Abrupt TypeError)
  /\ (classify binaryTypes contentType = false ->
      exists reply,
        sendRemixResponse binaryTypes response a = Normal reply
        /\ reply_body reply = Utf8 (held_bytes (body response))
        /\ isBase64Encoded reply = false).
Proof.
  intros Hct Hbody.
  destruct (sendRemixResponse_eq binaryTypes response a) as (h & ct & _ & Hct' & ->).
  rewrite Hct in Hct'. injection Hct' as <-.
  unfold body_string, Response_text. split; intros ->.
  - destruct (body response) as [| |s]; [done..|]. by destruct (Hbody s).
  - destruct (body response) as [| |s]; [by eexists..|]. by destruct (Hbody s).
Qed.

Lemma C7_witness :
  Headers.get (headers image_buffer_response) "content-type" = Normal (Some "image/png")
  /\ (forall s, body image_buffer_response <> StreamBody s)
  /\ sendRemixResponse ["image/png"] image_buffer_response (mkAbortController false)
     = Abrupt TypeError
  /\ exists reply,
       sendRemixResponse ["application/pdf"] image_buffer_response
         (mkAbortController false) = Normal reply
       /\ reply_body reply = Utf8 [Byte.x89; Byte.x50; Byte.x4e; Byte.x47]
       /\ isBase64Encoded reply = false.
Proof.
  assert (forall s, body image_buffer_response <> StreamBody s) as Hbody by done.
  split; [reflexivity|]. split; [exact Hbody|]. split.
  - exact (proj1 (C7_binary_body_no_stream ["image/png"] image_buffer_response
                    (mkAbortController false) (Some "image/png") eq_refl Hbody) eq_refl).
  - exact (proj2 (C7_binary_body_no_stream ["application/pdf"] image_buffer_response
                    (mkAbortController false) (Some "image/png") eq_refl Hbody) eq_refl).
Defined.



(** * The request *)

(** ** Appending to headers *)

Lemma set_prop_new {V : Type} (o : JS.object V) (k : string) (v : V) :
  k ∉ o.*1 -> JS.set_prop o k v = o ++ [(k, v)].
Proof.
  induction o as [|[k' v'] o IH]; simpl; [done|].
  intros [Hne Hk]%not_elem_of_cons. apply not_eq_sym, eqb_false in Hne.
  by rewrite Hne, IH.
Qed.

Lemma find_keys (h h' : Headers.t) (name : string) :
  h.*1 = h'.*1 -> Headers.find h name = Headers.find h' name.
Proof.
  revert h'. induction h as [|[k vs] h IH]; intros [|[k' vs'] h']; simpl; try done.
  intros [= -> Hkeys]. by rewrite (IH h').
Qed.

Lemma find_app (h h' : Headers.t) (name : string) :
  Headers.find (h ++ h') name
  = match Headers.find h name with
    | Some key => Some key
    | None => Headers.find h' name
    end.
Proof.
  induction h as [|[k vs] h IH]; simpl; [done|]. by destruct (String.eqb _ _).
Qed.

Lemma append_Normal (h : Headers.t) (name value : string) :
  Headers.validName name = true -> Headers.validValue value = true ->
  Headers.append h name value
  = Normal (match Headers.find h name with
            | Some key => JS.set_prop h key (default [] (JS.get_prop h key) ++ [value])
            | None => JS.set_prop h name [value]
            end).
Proof.
  intros Hn Hv. unfold Headers.append, Headers.validateName, Headers.validateValue.
  rewrite Hn, Hv. simpl. by destruct (Headers.find h name).
Qed.

Lemma append_inv (h h' : Headers.t) (name value : string) :
  Headers.append h name value = Normal h' ->
  Headers.validName name = true /\ Headers.validValue value = true.
Proof.
  unfold Headers.append, Headers.validateName, Headers.validateValue.
  destruct (Headers.validName name); [|done].
  destruct (Headers.validValue value); done.
Qed.

Lemma values_of_append_eq (h h' : Headers.t) (name value : string) :
  Headers.append h name value = Normal h' ->
  values_of h' name = values_of h name ++ [value].
Proof.
  intros Happ. destruct (append_inv _ _ _ _ Happ) as [Hn Hv].
  rewrite append_Normal in Happ by done. injection Happ as <-.
  unfold values_of. destruct (Headers.find h name) as [key|] eqn:F.
  - pose proof (find_Some _ _ _ F) as [_ Hin].
    rewrite (find_keys _ h name), F.
    + by rewrite get_prop_set_eq.
    + rewrite keys_set_prop. by rewrite bool_decide_eq_true_2.
  - assert (name ∉ h.*1) as Hnew.
    { apply find_None in F. rewrite Forall_forall in F. intros Hin. by apply (F name). }
    rewrite set_prop_new by done. rewrite find_app, F. simpl.
    by rewrite String.eqb_refl, <- set_prop_new, get_prop_set_eq.
Qed.

Lemma find_append_ne (h h' : Headers.t) (name name' value : string) :
  JS.toLowerCase name <> JS.toLowerCase name' ->
  Headers.append h name value = Normal h' ->
  Headers.find h' name' = Headers.find h name'
  /\ forall key', Headers.find h name' = Some key' ->
                  JS.get_prop h' key' = JS.get_prop h key'.
Proof.
  intros Hne Happ. destruct (append_inv _ _ _ _ Happ) as [Hn Hv].
  rewrite append_Normal in Happ by done. injection Happ as <-.
  destruct (Headers.find h name) as [key|] eqn:F.
  - pose proof (find_Some _ _ _ F) as [Hkey _]. split.
    + apply find_set_ne. congruence.
    + intros key' [Hkey' _]%find_Some. apply get_prop_set_ne, lower_ne. congruence.
  - split.
    + by apply find_set_ne.
    + intros key' [Hkey' _]%find_Some. apply get_prop_set_ne, lower_ne. congruence.
Qed.

Lemma values_of_append_ne (h h' : Headers.t) (name name' value : string) :
  JS.toLowerCase name <> JS.toLowerCase name' ->
  Headers.append h name value = Normal h' ->
  values_of h' name' = values_of h name'.
Proof.
  intros Hne Happ. destruct (find_append_ne _ _ _ _ _ Hne Happ) as [Hfind Hget].
  unfold values_of. rewrite Hfind. destruct (Headers.find h name') eqn:F; [|done].
  by rewrite Hget.
Qed.

Lemma well_formed_append (h h' : Headers.t) (name value : string) :
  well_formed h -> Headers.append h name value = Normal h' -> well_formed h'.
Proof.
  intros Hwf Happ. destruct (append_inv _ _ _ _ Happ) as [Hn Hv].
  rewrite append_Normal in Happ by done. injection Happ as <-.
  destruct (Headers.find h name) as [key|] eqn:F.
  - pose proof (well_formed_set_prop h name (default [] (JS.get_prop h key) ++ [value]) Hwf)
      as H. rewrite F in H. apply H. by intros [_ ?]%app_eq_nil.
  - pose proof (well_formed_set_prop h name [value] Hwf) as H. rewrite F in H. by apply H.
Qed.

(** Every [Headers] made by the methods of the class has the invariant. *)
Lemma built_wf (h : Headers.t) : built h -> Headers.wf h = true.
Proof.
  intros Hb. apply wf_well_formed. induction Hb as [|h h' name value _ IH Hset
    |h h' name value _ IH Happ|h h' name _ IH Hdel].
  - apply well_formed_empty.
  - unfold Headers.set in Hset.
    destruct (Headers.validateName name); [|done].
    destruct (Headers.validateValue value); [|done].
    rewrite !bind_Normal in Hset. injection Hset as <-. by apply well_formed_set.
  - by apply well_formed_append in Happ.
  - unfold Headers.delete in Hdel.
    destruct (Headers.validateName name); [|done]. rewrite bind_Normal in Hdel.
    destruct (Headers.find h name); injection Hdel as <-; [|done].
    by apply well_formed_delete.
Qed.

(** ** The loop of [createRemixHeaders] *)

Lemma append_headers_well_formed (headers h : Headers.t)
    (entries : JS.object (option string)) :
  well_formed headers -> append_headers headers entries = Normal h -> well_formed h.
Proof.
  revert headers. induction entries as [|[header value] entries IH]; intros headers Hwf.
  - simpl. by intros [= <-].
  - simpl. destruct (JS.truthy value).
    + destruct (Headers.append headers header (default "" value)) as [h1|] eqn:Happ;
        [|done].
      rewrite bind_Normal. apply IH. by apply well_formed_append in Happ.
    + by apply IH.
Qed.

(** The headers [createRemixHeaders] returns have the invariant. *)
Lemma createRemixHeaders_well_formed (requestHeaders : JS.object (option string))
    (requestCookies : option (list string)) (h : Headers.t) :
  createRemixHeaders requestHeaders requestCookies = Normal h -> Headers.wf h = true.
Proof.
  unfold createRemixHeaders. intros Hh. apply wf_well_formed.
  destruct (append_headers Headers.empty requestHeaders) as [base|] eqn:Hbase; [|done].
  rewrite bind_Normal in Hh.
  pose proof (append_headers_well_formed _ _ _ well_formed_empty Hbase) as Hwf.
  destruct requestCookies as [cookies|].
  - by apply well_formed_append in Hh.
  - by injection Hh as <-.
Qed.

Lemma append_headers_Normal (headers : Headers.t) (entries : JS.object (option string)) :
  legal_headers entries = true ->
  exists h, append_headers headers entries = Normal h.
Proof.
  revert headers. induction entries as [|[header value] entries IH]; intros headers.
  - by exists headers.
  - simpl. intros [Hlegal Hrest]%andb_prop. unfold legal_entry in Hlegal. simpl in Hlegal.
    destruct (JS.truthy value); simpl in *.
    + apply andb_prop in Hlegal as [Hn Hv].
      rewrite append_Normal by done. rewrite bind_Normal. by apply IH.
    + by apply IH.
Qed.

Lemma append_headers_no_cookie (headers h : Headers.t)
    (entries : JS.object (option string)) :
  no_cookie_header entries = true ->
  Headers.find headers "Cookie" = None ->
  append_headers headers entries = Normal h ->
  Headers.find h "Cookie" = None.
Proof.
  revert headers. induction entries as [|[header value] entries IH]; intros headers.
  - simpl. by intros _ ? [= <-].
  - simpl. intros [Hno Hrest]%andb_prop Hfind.
    destruct (JS.truthy value); simpl in *.
    + destruct (Headers.append headers header (default "" value)) as [h1|] eqn:Happ;
        [|done].
      rewrite bind_Normal. apply IH; [done|].
      apply negb_true_iff, eqb_false in Hno.
      destruct (find_append_ne headers h1 header "Cookie" (default "" value))
        as [-> _]; done.
    + by apply IH.
Qed.

Lemma get_appended (h h' : Headers.t) (name value : string) :
  Headers.find h name = None ->
  Headers.append h name value = Normal h' ->
  Headers.get h' name = Normal (Some value).
Proof.
  intros Hfind Happ. pose proof (values_of_append_eq _ _ _ _ Happ) as Hvalues.
  destruct (append_inv _ _ _ _ Happ) as [Hn _].
  unfold values_of in Hvalues. rewrite Hfind in Hvalues. simpl in Hvalues.
  unfold Headers.get, Headers.validateName. rewrite Hn, bind_Normal.
  destruct (Headers.find h' name) as [key|]; [|done].
  destruct (JS.get_prop h' key); simpl in Hvalues; by subst.
Qed.

(** ** [createRemixRequest], field by field *)

Lemma createRemixRequest_inv (event : Event) (a : option AbortController)
    (request : NodeRequest) :
  createRemixRequest event a = Normal request ->
  exists u,
    request_url event = Normal u
    /\ url request = URL.href u
    /\ method request = event_method event
    /\ createRemixHeaders (event_headers event) (event_cookies event)
       = Normal (request_headers request)
    /\ request_body_init event = Normal (request_body request).
Proof.
  unfold createRemixRequest.
  destruct (request_url event) as [u|]; [|done].
  destruct (createRemixHeaders _ _) as [h|]; [|done].
  destruct (request_body_init event) as [b|]; [|done].
  rewrite !bind_Normal. intros [= <-]. by exists u.
Qed.

(** ** The [Cookie] header *)

(** C5, amended: for an event with a cookie list (and legal header names
    and values), the headers of the request get exactly one more value for
    [Cookie], the cookie list joined with a semicolon and a space, and no
    other header changes; when the event's own headers have no [cookie] with
    a value, the [Cookie] header of the request is that joined string. *)
Theorem C5_cookie_header (event : Event) (cookies : list string) :
  event_cookies event = Some cookies ->
  legal_headers (event_headers event) = true ->
  Headers.validValue (JS.join "; " cookies) = true ->
  exists base headers,
    createRemixHeaders (event_headers event) None = Normal base
    /\ createRemixHeaders (event_headers event) (event_cookies event) = Normal headers
    /\ (forall a request,
          createRemixRequest event a = Normal request ->
          request_headers request = headers)
    /\ values_of headers "Cookie" = values_of base "Cookie" ++ [JS.join "; " cookies]
    /\ (forall name,
          JS.toLowerCase name <> "cookie" -> values_of headers name = values_of base name)
    /\ (no_cookie_header (event_headers event) = true ->
        Headers.get headers "Cookie" = Normal (Some (JS.join "; " cookies))).
Proof.
  intros Hcookies Hlegal Hvalue.
  destruct (append_headers_Normal Headers.empty _ Hlegal) as [base Hbase].
  assert (exists headers, Headers.append base "Cookie" (JS.join "; " cookies)
                          = Normal headers) as [headers Happ].
  { rewrite append_Normal by done. by eexists. }
  exists base, headers. unfold createRemixHeaders. rewrite Hcookies, Hbase, !bind_Normal.
  split; [done|]. split; [done|]. split; [|split; [|split]].
  - intros a request (u & _ & _ & _ & Hh & _)%createRemixRequest_inv.
    unfold createRemixHeaders in Hh. rewrite Hcookies, Hbase, bind_Normal in Hh.
    congruence.
  - by apply values_of_append_eq.
  - intros name Hname. apply values_of_append_ne with "Cookie" (JS.join "; " cookies);
      [|done]. change (JS.toLowerCase "Cookie") with "cookie". congruence.
  - intros Hno. apply get_appended with base; [|done].
    by apply append_headers_no_cookie with Headers.empty (event_headers event).
Qed.

Lemma C5_witness :
  event_cookies cookie_event = Some ["a=1"; "b=2"]
  /\ legal_headers (event_headers cookie_event) = true
  /\ Headers.validValue (JS.join "; " ["a=1"; "b=2"]) = true
  /\ no_cookie_header (event_headers cookie_event) = true
  /\ exists headers,
       createRemixHeaders (event_headers cookie_event) (event_cookies cookie_event)
       = Normal headers
       /\ Headers.get headers "Cookie" = Normal (Some "a=1; b=2").
Proof.
  split; [reflexivity|]. split; [reflexivity|]. split; [reflexivity|].
  split; [reflexivity|].
  destruct (C5_cookie_header cookie_event ["a=1"; "b=2"] eq_refl eq_refl eq_refl)
    as (base & headers & _ & Hheaders & _ & _ & _ & Hget).
  exists headers. split; [exact Hheaders | exact (Hget eq_refl)].
Defined.

(** The claim as stated fails when the event has a [cookie] header of its
    own: the synthesized value is appended to it. *)
Lemma C5_counterexample : ~ C5_as_stated own_cookie_event.
Proof.
  intros H. specialize (H ["a=1"; "b=2"] None _ eq_refl eq_refl). discriminate H.
Qed.

(** C10: an event whose cookie list is empty still gets one more value for
    [Cookie], the empty string; an event without a cookie list gets none,
    and any cookie list changes the headers. *)
Theorem C10_empty_cookie_list (requestHeaders : JS.object (option string)) :
  legal_headers requestHeaders = true ->
  exists base headers,
    createRemixHeaders requestHeaders None = Normal base
    /\ createRemixHeaders requestHeaders (Some []) = Normal headers
    /\ values_of headers "Cookie" = values_of base "Cookie" ++ [""]
    /\ (no_cookie_header requestHeaders = true ->
        Headers.get headers "Cookie" = Normal (Some "")
        /\ Headers.get base "Cookie" = Normal None)
    /\ (forall cookies, createRemixHeaders requestHeaders (Some cookies) <> Normal base).
Proof.
  intros Hlegal.
  destruct (append_headers_Normal Headers.empty _ Hlegal) as [base Hbase].
  assert (exists headers, Headers.append base "Cookie" "" = Normal headers)
    as [headers Happ] by (rewrite append_Normal by done; by eexists).
  exists base, headers. unfold createRemixHeaders. rewrite Hbase, !bind_Normal.
  split; [done|]. split; [done|]. split; [|split].
  - by apply values_of_append_eq.
  - intros Hno.
    pose proof (append_headers_no_cookie Headers.empty _ _ Hno eq_refl Hbase) as Hfind.
    split; [by apply get_appended with base|].
    unfold Headers.get. change (Headers.validateName "Cookie") with (Normal tt).
    by rewrite bind_Normal, Hfind.
  - intros cookies Heq. apply values_of_append_eq in Heq.
    apply (f_equal length) in Heq. rewrite length_app in Heq. simpl in Heq. lia.
Qed.

Lemma C10_witness :
  legal_headers (event_headers cookie_event) = true
  /\ no_cookie_header (event_headers cookie_event) = true
  /\ exists base headers,
       createRemixHeaders (event_headers cookie_event) None = Normal base
       /\ createRemixHeaders (event_headers cookie_event) (Some []) = Normal headers
       /\ Headers.get headers "Cookie" = Normal (Some "")
       /\ Headers.get base "Cookie" = Normal None.
Proof.
  split; [reflexivity|]. split; [reflexivity|].
  destruct (C10_empty_cookie_list (event_headers cookie_event) eq_refl)
    as (base & headers & Hbase & Hheaders & _ & Hget & _).
  exists base, headers. split; [exact Hbase|]. split; [exact Hheaders|].
  exact (Hget eq_refl).
Defined.

(** ** Base64 *)

Lemma below_64 (P : N -> bool) :
  forallb P (N.of_nat <$> seq 0 64) = true -> forall n, (n < 64)%N -> P n = true.
Proof.
  intros H n Hn. rewrite forallb_forall in H. apply H.
  apply list_elem_of_In, list_elem_of_fmap. exists (N.to_nat n).
  split; [by rewrite N2Nat.id|]. apply list_elem_of_In, in_seq. lia.
Qed.

Lemma sextet_char (n : N) :
  (n < 64)%N -> Base64.sextet (base64_char n) = Some n.
Proof.
  intros Hn.
  apply (below_64 (fun n => bool_decide (Base64.sextet (base64_char n) = Some n)))
    in Hn; [by apply bool_decide_eq_true in Hn|].
  by vm_compute.
Qed.

Lemma byte_of_to_N (x : Byte.byte) (n : N) :
  (n mod 256 = Byte.to_N x)%N -> Base64.byte_of n = x.
Proof. unfold Base64.byte_of. intros ->. by destruct x. Qed.

Lemma to_N_bound (x : Byte.byte) : (Byte.to_N x < 256)%N.
Proof. by destruct x. Qed.

Local Ltac div_mod_lia :=
  zify; Z.to_euclidean_division_equations; lia.

Lemma group_bytes (x y z : N) :
  (x < 256 -> y < 256 -> z < 256 ->
   let a := x / 4 in
   let b := x mod 4 * 16 + y / 16 in
   let c := y mod 16 * 4 + z / 64 in
   let d := z mod 64 in
   a < 64 /\ b < 64 /\ c < 64 /\ d < 64
   /\ (4 * a + b / 16) mod 256 = x
   /\ (16 * b + c / 4) mod 256 = y
   /\ (64 * c + d) mod 256 = z)%N.
Proof. intros Hx Hy Hz a b c d. subst a b c d. repeat split; div_mod_lia. Qed.

Lemma list_ind3 {A : Type} (P : list A -> Prop) :
  P [] -> (forall x, P [x]) -> (forall x y, P [x; y]) ->
  (forall x y z l, P l -> P (x :: y :: z :: l)) ->
  forall l, P l.
Proof.
  intros H0 H1 H2 H3. fix IH 1. intros [|x [|y [|z l]]]; [done | done | done |].
  apply H3, IH.
Qed.

Lemma decode_group (c1 c2 c3 c4 : ascii) (rest : string) :
  Base64.decode (String c1 (String c2 (String c3 (String c4 rest))))
  = match Base64.sextet c1, Base64.sextet c2 with
    | Some a, Some b =>
        match Base64.sextet c3, Base64.sextet c4 with
        | Some c, Some d =>
            tail ← Base64.decode rest;
            Normal (Base64.byte_of (4 * a + b / 16) :: Base64.byte_of (16 * b + c / 4)
                      :: Base64.byte_of (64 * c + d) :: tail)
        | Some c, None =>
            if Base64.pad c4 && String.eqb rest ""
            then Normal [Base64.byte_of (4 * a + b / 16); Base64.byte_of (16 * b + c / 4)]
            else Abrupt Unmodelled
        | None, _ =>
            if Base64.pad c3 && Base64.pad c4 && String.eqb rest ""
            then Normal [Base64.byte_of (4 * a + b / 16)]
            else Abrupt Unmodelled
        end
    | _, _ => Abrupt Unmodelled
    end.
Proof. reflexivity. Qed.

(** [Base64.decode] gives back the bytes of every base64 encoding. *)
Lemma decode_encode (b : Buffer) : Base64.decode (base64_encode b) = Normal b.
Proof.
  induction b as [|x|x y|x y z rest IH] using list_ind3.
  - reflexivity.
  - pose proof (to_N_bound x) as Hx.
    change (base64_encode [x])
      with (String (base64_char (Byte.to_N x / 4))
              (String (base64_char (Byte.to_N x mod 4 * 16)) "==")).
    rewrite decode_group, !sextet_char by div_mod_lia.
    change (Base64.sextet "=") with (@None N). simpl.
    f_equal. f_equal. apply byte_of_to_N. div_mod_lia.
  - pose proof (to_N_bound x) as Hx. pose proof (to_N_bound y) as Hy.
    change (base64_encode [x; y])
      with (String (base64_char (Byte.to_N x / 4))
              (String (base64_char (Byte.to_N x mod 4 * 16 + Byte.to_N y / 16))
                 (String (base64_char (Byte.to_N y mod 16 * 4)) "="))).
    rewrite decode_group, !sextet_char by div_mod_lia.
    change (Base64.sextet "=") with (@None N). simpl.
    f_equal. f_equal; [|f_equal]; apply byte_of_to_N; div_mod_lia.
  - pose proof (to_N_bound x) as Hx. pose proof (to_N_bound y) as Hy.
    pose proof (to_N_bound z) as Hz.
    destruct (group_bytes _ _ _ Hx Hy Hz) as (Ha & Hb & Hc & Hd & H1 & H2 & H3).
    change (base64_encode (x :: y :: z :: rest))
      with (String (base64_char (Byte.to_N x / 4))
              (String (base64_char (Byte.to_N x mod 4 * 16 + Byte.to_N y / 16))
                 (String (base64_char (Byte.to_N y mod 16 * 4 + Byte.to_N z / 64))
                    (String (base64_char (Byte.to_N z mod 64)) (base64_encode rest))))).
    rewrite decode_group, !sextet_char, IH, bind_Normal by done.
    by rewrite (byte_of_to_N x), (byte_of_to_N y), (byte_of_to_N z).
Qed.

(** ** The body of the request *)

Lemma base64_encode_not_empty (bytes : Buffer) : bytes <> [] -> base64_encode bytes <> "".
Proof. by destruct bytes as [|x [|y [|z rest]]]. Qed.

(** C6: with [isBase64Encoded] and a body that is not empty, the body of the
    request is the base64 decoding of the body of the event, as a string
    (so the string of [bytes] when the body is the base64 of [bytes]); in
    every other case it is the body of the event as it is, and no body when
    the event has none. *)
Theorem C6_request_body (event : Event) :
  (forall a request,
     createRemixRequest event a = Normal request ->
     request_body_init event = Normal (request_body request))
  /\ (forall b,
        event_isBase64Encoded event = true -> event_body event = Some b -> b <> "" ->
        request_body_init event
        = (buffer ← Base64.decode b; Normal (Some (Utf8 buffer))))
  /\ (forall bytes,
        event_isBase64Encoded event = true ->
        event_body event = Some (base64_encode bytes) -> bytes <> [] ->
        request_body_init event = Normal (Some (Utf8 bytes)))
  /\ (event_isBase64Encoded event = false \/ event_body event = Some ""
      \/ event_body event = None ->
      request_body_init event = Normal (Str <$> event_body event))
  /\ (event_body event = None -> request_body_init event = Normal None).
Proof.
  unfold request_body_init. split; [|split; [|split; [|split]]].
  - by intros a request (u & _ & _ & _ & _ & Hbody)%createRemixRequest_inv.
  - intros b -> -> Hb%eqb_false. simpl. by rewrite Hb.
  - intros bytes -> -> Hb%base64_encode_not_empty%eqb_false. simpl.
    by rewrite Hb, decode_encode.
  - intros [->|[->| ->]]; [by rewrite andb_false_r | done | done].
  - by intros ->.
Qed.

Lemma C6_witness :
  event_isBase64Encoded base64_event = true
  /\ event_body base64_event = Some "aGVsbG8="
  /\ "aGVsbG8=" <> ""
  /\ base64_encode [Byte.x68; Byte.x65; Byte.x6c; Byte.x6c; Byte.x6f] = "aGVsbG8="
  /\ Base64.decode "aGVsbG8=" = Normal [Byte.x68; Byte.x65; Byte.x6c; Byte.x6c; Byte.x6f]
  /\ request_body_init base64_event
     = Normal (Some (Utf8 [Byte.x68; Byte.x65; Byte.x6c; Byte.x6c; Byte.x6f]))
  /\ text_value (Utf8 [Byte.x68; Byte.x65; Byte.x6c; Byte.x6c; Byte.x6f]) = Some "hello".
Proof.
  assert ("aGVsbG8=" <> "") as Hne by discriminate.
  split; [reflexivity|]. split; [reflexivity|]. split; [exact Hne|].
  split; [reflexivity|]. split; [reflexivity|]. split; [|reflexivity].
  exact (proj1 (proj2 (C6_request_body base64_event)) "aGVsbG8=" eq_refl eq_refl Hne).
Defined.

(** * The URL of the request *)

(** ** Preparing the input *)

Lemma strip_leading_visible (s : string) :
  JS.all_chars visible s = true -> URL.strip_leading s = s.
Proof.
  destruct s as [|c s]; [done|]. simpl. intros [Hc _]%andb_prop.
  unfold URL.c0_control_or_space. unfold visible in Hc.
  apply N.ltb_lt in Hc. by rewrite (proj2 (N.leb_gt _ _)).
Qed.

Lemma strip_trailing_visible (s : string) :
  JS.all_chars visible s = true -> URL.strip_trailing s = s.
Proof.
  induction s as [|c s IH]; [done|]. simpl. intros [Hc Hs]%andb_prop.
  rewrite (IH Hs). unfold URL.c0_control_or_space. unfold visible in Hc.
  apply N.ltb_lt in Hc. by rewrite (proj2 (N.leb_gt _ _)).
Qed.

Lemma visible_not_tab (c : ascii) : visible c = true -> URL.tab_or_newline c = false.
Proof. destruct c as [[] [] [] [] [] [] [] []]; done. Qed.

Lemma remove_tab_newline_visible (s : string) :
  JS.all_chars visible s = true -> URL.remove_tab_newline s = s.
Proof.
  induction s as [|c s IH]; [done|]. simpl. intros [Hc Hs]%andb_prop.
  by rewrite (visible_not_tab c Hc), (IH Hs).
Qed.

Lemma clean_visible (s : string) :
  JS.all_chars visible s = true -> URL.clean s = s.
Proof.
  intros H. unfold URL.clean.
  by rewrite strip_leading_visible, strip_trailing_visible, remove_tab_newline_visible.
Qed.

(** Cleaning only takes characters away. *)
Lemma all_chars_strip_leading (p : ascii -> bool) (s : string) :
  JS.all_chars p s = true -> JS.all_chars p (URL.strip_leading s) = true.
Proof.
  induction s as [|c s IH]; [done|]. simpl. intros H.
  destruct (URL.c0_control_or_space c); [|done].
  apply andb_prop in H as [_ H]. by apply IH.
Qed.

Lemma all_chars_strip_trailing (p : ascii -> bool) (s : string) :
  JS.all_chars p s = true -> JS.all_chars p (URL.strip_trailing s) = true.
Proof.
  induction s as [|c s IH]; [done|]. simpl. intros [Hc Hs]%andb_prop.
  destruct (_ && _); [done|]. simpl. by rewrite Hc, IH.
Qed.

Lemma all_chars_remove_tab_newline (p : ascii -> bool) (s : string) :
  JS.all_chars p s = true -> JS.all_chars p (URL.remove_tab_newline s) = true.
Proof.
  induction s as [|c s IH]; [done|]. simpl. intros [Hc Hs]%andb_prop.
  destruct (URL.tab_or_newline c); [by apply IH|]. simpl. by rewrite Hc, IH.
Qed.

Lemma all_chars_clean (p : ascii -> bool) (s : string) :
  JS.all_chars p s = true -> JS.all_chars p (URL.clean s) = true.
Proof.
  intros H. unfold URL.clean.
  by apply all_chars_remove_tab_newline, all_chars_strip_trailing,
           all_chars_strip_leading.
Qed.

(** ** Hosts *)

Lemma plain_hostname_from_cons (st : URL.label_state) (c : ascii) (s : string) :
  URL.plain_hostname_from st (String c s)
  = match st with
    | URL.LabelStart =>
        if URL.ascii_alpha c then URL.plain_hostname_from (URL.InLabel true false) s
        else if URL.ascii_digit c then URL.plain_hostname_from (URL.InLabel false false) s
        else false
    | URL.InLabel a h =>
        if URL.ascii_alpha c || URL.ascii_digit c
        then URL.plain_hostname_from (URL.InLabel a false) s
        else if URL.is_in [45]%N c
             then negb h && URL.plain_hostname_from (URL.InLabel a true) s
             else if URL.is_in [46]%N c
                  then negb h && URL.plain_hostname_from URL.LabelStart s
                  else false
    end.
Proof. by destruct st. Qed.

Lemma hostname_char_visible (c : ascii) :
  URL.ascii_alpha c || URL.ascii_digit c || URL.is_in [45]%N c || URL.is_in [46]%N c = true ->
  visible c && negb (URL.is_in [58]%N c) = true.
Proof. destruct c as [[] [] [] [] [] [] [] []]; done. Qed.

Lemma plain_hostname_chars (st : URL.label_state) (s : string) :
  URL.plain_hostname_from st s = true ->
  JS.all_chars (fun c => visible c && negb (URL.is_in [58]%N c)) s = true.
Proof.
  revert st. induction s as [|c s IH]; intros st; [done|].
  rewrite plain_hostname_from_cons.
  pose proof (hostname_char_visible c) as Hc.
  change (JS.all_chars ?p (String c s)) with (p c && JS.all_chars p s). cbv beta.
  destruct st as [|al hy].
  - destruct (URL.ascii_alpha c); [intros H; rewrite Hc by done; by apply IH in H|].
    destruct (URL.ascii_digit c); [|done].
    intros H. rewrite Hc by done. by apply IH in H.
  - destruct (URL.ascii_alpha c || URL.ascii_digit c).
    { intros H. rewrite Hc by done. by apply IH in H. }
    destruct (URL.is_in [45]%N c).
    { intros [_ H]%andb_prop. rewrite Hc by done. by apply IH in H. }
    destruct (URL.is_in [46]%N c); [|done].
    intros [_ H]%andb_prop. rewrite Hc by done. by apply IH in H.
Qed.

Lemma span_all (p : ascii -> bool) (s : string) :
  JS.all_chars p s = true -> URL.span p s = (s, "").
Proof.
  induction s as [|c s IH]; [done|]. simpl. intros [Hc Hs]%andb_prop.
  by rewrite Hc, (IH Hs).
Qed.

Lemma strip_prefix_app (p s : string) : URL.strip_prefix p (p +:+ s) = Some s.
Proof.
  induction p as [|c p IH]; [done|].
  rewrite string_app_cons. simpl. by rewrite Ascii.eqb_refl.
Qed.

Lemma parse_authority_plain (h : string) :
  URL.plain_hostname h = true ->
  URL.parse_authority h = Normal (JS.toLowerCase h, None).
Proof.
  intros Hh. unfold URL.parse_authority.
  rewrite span_all.
  - unfold URL.parse_host. by rewrite Hh.
  - apply plain_hostname_chars in Hh. revert Hh. apply all_chars_impl.
    by intros c [_ ?]%andb_prop.
Qed.

Lemma parse_base_plain (h : string) :
  URL.plain_hostname h = true ->
  URL.parse_base ("https://" +:+ h) = Normal (JS.toLowerCase h, None).
Proof.
  intros Hh. unfold URL.parse_base. rewrite clean_visible.
  - rewrite strip_prefix_app. by apply parse_authority_plain.
  - rewrite all_chars_app. apply andb_true_intro. split; [done|].
    apply plain_hostname_chars in Hh. revert Hh. apply all_chars_impl.
    by intros c [? _]%andb_prop.
Qed.

(** ** The path state *)

Lemma path_state_cons (host : string) (port : option N) (path : list string)
    (buffer : string) (c : ascii) (s : string) :
  URL.path_state host port path buffer (String c s)
  = if URL.slash c then URL.path_state host port (URL.end_segment path buffer true) "" s
    else if URL.is_in [63]%N c then
      let '(q, f) := URL.query_state s in
      Normal (URL.mk host port (URL.end_segment path buffer false) (Some q) f)
    else if URL.is_in [35]%N c then
      Normal (URL.mk host port (URL.end_segment path buffer false) None
                     (Some (URL.fragment_state s)))
    else if URL.is_in [94]%N c then Abrupt Unmodelled
    else URL.path_state host port path (buffer +:+ URL.percent_encode URL.path_set c) s.
Proof. reflexivity. Qed.

(** The path state keeps the host and the port it is given. *)
Lemma path_state_host (host : string) (port : option N) (path : list string)
    (buffer s : string) (u : URL.t) :
  URL.path_state host port path buffer s = Normal u ->
  URL.hostname u = host /\ URL.port u = port.
Proof.
  revert path buffer. induction s as [|c s IH]; intros path buffer.
  - simpl. by intros [= <-].
  - rewrite path_state_cons. destruct (URL.slash c); [apply IH|].
    destruct (URL.is_in [63]%N c).
    { destruct (URL.query_state s). by intros [= <-]. }
    destruct (URL.is_in [35]%N c); [by intros [= <-]|].
    destruct (URL.is_in [94]%N c); [done | apply IH].
Qed.

(** Without a caret the path state returns. *)
Lemma path_state_Normal (host : string) (port : option N) (path : list string)
    (buffer s : string) :
  no_caret s = true -> exists u, URL.path_state host port path buffer s = Normal u.
Proof.
  revert path buffer. induction s as [|c s IH]; intros path buffer.
  - by eexists.
  - intros Hs. unfold no_caret in Hs. simpl in Hs. apply andb_prop in Hs as [Hc Hs].
    rewrite path_state_cons.
    destruct (URL.slash c); [by apply IH|].
    destruct (URL.is_in [63]%N c); [destruct (URL.query_state s); by eexists|].
    destruct (URL.is_in [35]%N c); [by eexists|].
    apply negb_true_iff in Hc. rewrite Hc. by apply IH.
Qed.

Lemma end_segment_plain (path : list string) (buffer : string) (at_slash : bool) :
  dot_segment buffer = false -> URL.end_segment path buffer at_slash = path ++ [buffer].
Proof.
  unfold dot_segment, URL.end_segment. intros [-> ->]%orb_false_elim. done.
Qed.

Lemma plain_char_spec (c : ascii) :
  plain_char c = true ->
  URL.slash c = false /\ URL.is_in [63]%N c = false /\ URL.is_in [35]%N c = false
  /\ URL.is_in [94]%N c = false /\ URL.path_set c = false /\ visible c = true.
Proof. destruct c as [[] [] [] [] [] [] [] []]; done. Qed.

Lemma is_slash (c : ascii) : URL.is_in [47]%N c = true -> c = "/"%char.
Proof. destruct c as [[] [] [] [] [] [] [] []]; done. Qed.

Lemma plain_query_char (c : ascii) :
  URL.special_query_set c = false -> URL.is_in [35]%N c = false /\ visible c = true.
Proof. destruct c as [[] [] [] [] [] [] [] []]; done. Qed.

Lemma percent_encode_string_plain (set : ascii -> bool) (s : string) :
  JS.all_chars (fun c => negb (set c)) s = true -> URL.percent_encode_string set s = s.
Proof.
  induction s as [|c s IH]; [done|]. simpl. intros [Hc Hs]%andb_prop.
  apply negb_true_iff in Hc. unfold URL.percent_encode. by rewrite Hc, (IH Hs).
Qed.

Lemma query_state_plain (q : string) :
  plain_query q = true -> URL.query_state q = (q, None).
Proof.
  intros Hq. unfold URL.query_state. rewrite span_all.
  - by rewrite percent_encode_string_plain.
  - revert Hq. apply all_chars_impl. intros c Hc%negb_true_iff.
    apply plain_query_char in Hc as [-> _]. done.
Qed.

(** The segments, joined by slashes, are the path. *)
Lemma serialize_segments (buffer s : string) :
  URL.serialize_path (segments buffer s) = "/" +:+ buffer +:+ s.
Proof.
  revert buffer. induction s as [|c s IH]; intros buffer; simpl.
  - unfold URL.serialize_path. simpl. by rewrite !string_app_nil_r.
  - destruct (URL.is_in [47]%N c) eqn:Ec.
    + apply is_slash in Ec as ->.
      change (URL.serialize_path (buffer :: segments "" s))
        with ("/" +:+ buffer +:+ URL.serialize_path (segments "" s)).
      by rewrite IH.
    + rewrite IH. by rewrite !string_app_assoc.
Qed.

(** On plain segments the path state copies its input. *)
Lemma path_state_plain (host : string) (port : option N) (s : string) :
  forall (path : list string) (buffer tail : string),
  plain_segments buffer s = true ->
  tail = "" \/ (exists q, tail = String "?" q) ->
  URL.path_state host port path buffer (s +:+ tail)
  = path_result host port (path ++ segments buffer s) tail.
Proof.
  induction s as [|c s IH]; intros path buffer tail Hplain Htail.
  - simpl in Hplain. apply negb_true_iff in Hplain. rewrite string_app_nil_l.
    destruct Htail as [->|[q ->]].
    + simpl. by rewrite end_segment_plain.
    + rewrite path_state_cons. simpl. by rewrite end_segment_plain.
  - rewrite (string_app_cons c s tail), path_state_cons. simpl in Hplain. simpl segments.
    destruct (URL.is_in [47]%N c) eqn:Ec.
    + apply is_slash in Ec as ->. apply andb_prop in Hplain as [Hdot Hs].
      apply negb_true_iff in Hdot. simpl. rewrite end_segment_plain by done.
      rewrite (IH (path ++ [buffer]) "" tail Hs Htail). by rewrite <- app_assoc.
    + apply andb_prop in Hplain as [Hc Hs].
      apply plain_char_spec in Hc as (-> & -> & -> & -> & Hset & _).
      unfold URL.percent_encode. rewrite Hset.
      by rewrite (IH path (buffer +:+ String c "") tail Hs Htail).
Qed.

(** ** An input that starts with one slash *)

Lemma parse_relative_single_slash (input : string) (base : string * option N) :
  single_slash (URL.clean input) = true ->
  exists c s, URL.clean input = String c s
              /\ URL.parse_relative input base = URL.path_state base.1 base.2 [] "" s.
Proof.
  unfold URL.parse_relative, single_slash.
  destruct (URL.clean input) as [|c s]; [done|].
  intros [Hc Hs]%andb_prop. exists c, s. split; [done|]. rewrite Hc.
  destruct s as [|c2 s2]; [done|]. simpl in Hs. apply negb_true_iff in Hs. by rewrite Hs.
Qed.

Lemma plain_segments_visible (buffer s : string) :
  plain_segments buffer s = true -> JS.all_chars visible s = true.
Proof.
  revert buffer. induction s as [|c s IH]; intros buffer; [done|]. simpl.
  destruct (URL.is_in [47]%N c) eqn:Ec.
  - apply is_slash in Ec as ->. intros [_ Hs]%andb_prop. simpl. by apply IH in Hs.
  - intros [Hc Hs]%andb_prop. apply plain_char_spec in Hc as (_ & _ & _ & _ & _ & ->).
    by apply IH in Hs.
Qed.

Lemma plain_query_visible (q : string) :
  plain_query q = true -> JS.all_chars visible q = true.
Proof.
  apply all_chars_impl. intros c Hc%negb_true_iff. by apply plain_query_char in Hc as [_ ?].
Qed.

(** What [createRemixRequest] appends to the path. *)
Lemma request_search_cases (event : Event) :
  (rawQueryString event = "" /\ request_search event = "")
  \/ (rawQueryString event <> ""
      /\ request_search event = String "?" (rawQueryString event)).
Proof.
  unfold request_search. destruct (rawQueryString event) as [|c q]; [by left | by right].
Qed.

(** A plain path and a plain query come out of the parser as they went in,
    under the host of the base. *)
Lemma parse_relative_plain (p search : string) (base : string * option N) :
  plain_path p = true ->
  search = "" \/ (exists q, search = String "?" q /\ plain_query q = true) ->
  exists path',
    URL.serialize_path path' = p
    /\ URL.parse_relative (p +:+ search) base
       = Normal (URL.mk base.1 base.2 path'
                        match search with
                        | EmptyString => None
                        | String _ q => Some q
                        end None).
Proof.
  intros Hp Hsearch. destruct p as [|c rest]; [done|]. simpl in Hp.
  apply andb_prop in Hp as [[Hc Hstart]%andb_prop Hrest].
  apply is_slash in Hc as ->. apply negb_true_iff in Hstart.
  pose proof (plain_segments_visible _ _ Hrest) as Hvis.
  exists (segments "" rest). split; [by rewrite serialize_segments|].
  assert (JS.all_chars visible (String "/" rest +:+ search) = true) as Hall.
  { rewrite all_chars_app. simpl. rewrite Hvis. simpl.
    destruct Hsearch as [->|(q & -> & Hq)]; [done|]. simpl.
    by apply plain_query_visible. }
  destruct (parse_relative_single_slash (String "/" rest +:+ search) base)
    as (c & s & Hclean & ->).
  - rewrite clean_visible by done. rewrite string_app_cons. simpl.
    destruct rest as [|c2 rest].
    + rewrite string_app_nil_l. by destruct Hsearch as [->|(q & -> & _)].
    + rewrite string_app_cons. simpl in *. by rewrite Hstart.
  - rewrite clean_visible in Hclean by done. rewrite string_app_cons in Hclean.
    injection Hclean as <- <-. rewrite path_state_plain; [|done|].
    + destruct Hsearch as [->|(q & -> & Hq)]; [done|]. simpl.
      by rewrite query_state_plain.
    + destruct Hsearch as [->|(q & -> & Hq)]; [by left | right; by exists q].
Qed.

(** [new URL] on a plain host, a plain path and a plain query. *)
Lemma request_url_plain (event : Event) (h : string) :
  request_host event = Some h -> URL.plain_hostname h = true ->
  plain_path (rawPath event) = true -> plain_query (rawQueryString event) = true ->
  exists path',
    URL.serialize_path path' = rawPath event
    /\ request_url event
       = Normal (URL.mk (JS.toLowerCase h) None path'
                        (if String.eqb (rawQueryString event) "" then None
                         else Some (rawQueryString event))
                        None).
Proof.
  intros Hhost Hh Hp Hq. unfold request_url, URL.new. rewrite Hhost. simpl JS.template.
  rewrite parse_base_plain, bind_Normal by done.
  destruct (parse_relative_plain (rawPath event) (request_search event)
              (JS.toLowerCase h, None) Hp) as (path' & Hser & ->).
  - destruct (request_search_cases event) as [[_ ->]|[_ ->]]; [by left|].
    right. by eexists.
  - exists path'. split; [done|].
    destruct (request_search_cases event) as [[-> ->]|[Hne ->]]; [done|].
    apply eqb_false in Hne. by rewrite Hne.
Qed.

(** ** The host of the URL *)

Lemma no_caret_search (event : Event) :
  no_caret (rawPath event) = true -> no_caret (rawQueryString event) = true ->
  no_caret (rawPath event +:+ request_search event) = true.
Proof.
  intros Hp Hq. unfold no_caret in *. rewrite all_chars_app, Hp. simpl.
  destruct (request_search_cases event) as [[_ ->]|[_ ->]]; [done|]. simpl. exact Hq.
Qed.

(** C3, amended: the host of the request is the value of [x-forwarded-host]
    when the event has one that is not empty, and the value of [host]
    otherwise; when it is a plain host name and the path starts with one
    slash, the host of the URL is that name in lower case. *)
Theorem C3_host_resolution (event : Event) :
  (forall h1,
     header_of event "x-forwarded-host" = Some h1 -> h1 <> "" ->
     request_host event = Some h1)
  /\ (header_of event "x-forwarded-host" = None
      \/ header_of event "x-forwarded-host" = Some "" ->
      request_host event = header_of event "host")
  /\ (forall h,
        request_host event = Some h ->
        URL.plain_hostname h = true ->
        single_slash (URL.clean (rawPath event +:+ request_search event)) = true ->
        (forall u, request_url event = Normal u -> URL.host u = JS.toLowerCase h)
        /\ (no_caret (rawPath event) = true -> no_caret (rawQueryString event) = true ->
            exists u, request_url event = Normal u)).
Proof.
  split; [|split].
  - intros h1 Hx Hne%eqb_false. unfold request_host, JS.or_else. rewrite Hx. simpl.
    by rewrite Hne.
  - unfold request_host, JS.or_else. by intros [-> | ->].
  - intros h Hhost Hplain Hslash. unfold request_url, URL.new. rewrite Hhost.
    simpl JS.template. rewrite parse_base_plain, bind_Normal by done.
    destruct (parse_relative_single_slash _ (JS.toLowerCase h, None) Hslash)
      as (c & s & Hclean & ->).
    split.
    + intros u [Hname Hport]%path_state_host. unfold URL.host. by rewrite Hport, Hname.
    + intros Hp Hq. apply path_state_Normal.
      pose proof (all_chars_clean _ _ (no_caret_search event Hp Hq)) as Hall.
      rewrite Hclean in Hall. simpl in Hall. by apply andb_prop in Hall as [_ ?].
Qed.

Lemma C3_witness :
  header_of forwarded_event "x-forwarded-host" = Some "shop.example.com"
  /\ header_of forwarded_event "host" = Some "internal.example"
  /\ request_host forwarded_event = Some "shop.example.com"
  /\ URL.plain_hostname "shop.example.com" = true
  /\ single_slash (URL.clean (rawPath forwarded_event +:+ request_search forwarded_event))
     = true
  /\ no_caret (rawPath forwarded_event) = true
  /\ no_caret (rawQueryString forwarded_event) = true
  /\ (exists u, request_url forwarded_event = Normal u)
  /\ (forall u, request_url forwarded_event = Normal u -> URL.host u = "shop.example.com").
Proof.
  assert ("shop.example.com" <> "") as Hne by discriminate.
  pose proof (C3_host_resolution forwarded_event) as (Hforwarded & _ & Hurl).
  pose proof (Hforwarded "shop.example.com" eq_refl Hne) as Hhost.
  destruct (Hurl "shop.example.com" Hhost eq_refl eq_refl) as [Hu Hex].
  split; [reflexivity|]. split; [reflexivity|]. split; [exact Hhost|].
  split; [reflexivity|]. split; [reflexivity|]. split; [reflexivity|].
  split; [reflexivity|]. split; [exact (Hex eq_refl eq_refl) | exact Hu].
Defined.

(** The claim as stated fails on a forwarded host in capitals or with the
    default port, which the URL has in lower case and without the port, and
    on a path that starts with two slashes, which the URL parser reads as
    an authority. *)
Lemma C3_counterexample :
  ~ C3_as_stated capital_host_event /\ ~ C3_as_stated double_slash_event.
Proof.
  split; intros H.
  - specialize (H "Shop.Example.com:443" "internal.example" _ eq_refl eq_refl eq_refl).
    discriminate H.
  - specialize (H "shop.example.com" "internal.example" _ eq_refl eq_refl eq_refl).
    discriminate H.
Qed.

(** A path that starts with two slashes names an authority: the host of the
    URL is then neither header's. *)
Lemma double_slash_host :
  exists u, request_url double_slash_event = Normal u
            /\ URL.host u = "evil.example" /\ URL.pathname u = "/cart".
Proof. eexists. split; [reflexivity|]. split; reflexivity. Qed.

(** ** The path and the query of the URL *)

Lemma href_plain (host : string) (path : list string) (q : option string) :
  URL.href (URL.mk host None path q None)
  = "https://" +:+ host +:+ URL.serialize_path path
      +:+ match q with None => "" | Some q => "?" +:+ q end.
Proof. unfold URL.href, URL.host, URL.pathname. simpl. by rewrite string_app_nil_r. Qed.

(** C4, amended: a question mark and the raw query string are appended to
    the raw path when the raw query string is not empty, and nothing when it
    is; for a plain host name, a plain path and a plain query string, the
    URL is then [https://], the host in lower case and the raw path, with
    nothing more for an empty raw query string and with the question mark
    and the raw query string otherwise. *)
Theorem C4_url_query (event : Event) :
  (rawQueryString event = "" -> request_search event = "")
  /\ (rawQueryString event <> "" ->
      request_search event = "?" +:+ rawQueryString event)
  /\ (forall h,
        request_host event = Some h ->
        URL.plain_hostname h = true ->
        plain_path (rawPath event) = true ->
        plain_query (rawQueryString event) = true ->
        exists u,
          request_url event = Normal u
          /\ (forall a request,
                createRemixRequest event a = Normal request -> url request = URL.href u)
          /\ (rawQueryString event = "" ->
              URL.href u = "https://" +:+ JS.toLowerCase h +:+ rawPath event)
          /\ (rawQueryString event <> "" ->
              URL.href u = "https://" +:+ JS.toLowerCase h +:+ rawPath event
                             +:+ "?" +:+ rawQueryString event)).
Proof.
  split; [|split].
  - intros Hq. by destruct (request_search_cases event) as [[_ ?]|[? _]].
  - intros Hq. by destruct (request_search_cases event) as [[? _]|[_ ?]].
  - intros h Hhost Hh Hp Hq.
    destruct (request_url_plain event h Hhost Hh Hp Hq) as (path' & Hser & Hu).
    eexists. split; [exact Hu|]. rewrite href_plain, Hser. split; [|split].
    + intros a request (u & Hu' & -> & _)%createRemixRequest_inv.
      rewrite Hu in Hu'. injection Hu' as <-. by rewrite href_plain, Hser.
    + intros ->. simpl. by rewrite string_app_nil_r.
    + intros Hne%eqb_false. by rewrite Hne.
Qed.

Lemma C4_witness :
  request_host forwarded_event = Some "shop.example.com"
  /\ URL.plain_hostname "shop.example.com" = true
  /\ plain_path (rawPath forwarded_event) = true
  /\ plain_query (rawQueryString forwarded_event) = true
  /\ rawQueryString forwarded_event <> ""
  /\ exists u, request_url forwarded_event = Normal u
               /\ URL.href u = "https://shop.example.com/cart?id=7".
Proof.
  assert (rawQueryString forwarded_event <> "") as Hne by discriminate.
  split; [reflexivity|]. split; [reflexivity|]. split; [reflexivity|].
  split; [reflexivity|]. split; [exact Hne|].
  destruct (proj2 (proj2 (C4_url_query forwarded_event))
              "shop.example.com" eq_refl eq_refl eq_refl eq_refl)
    as (u & Hu & _ & _ & Hhref).
  exists u. split; [exact Hu | exact (Hhref Hne)].
Defined.

(** The claim as stated fails on a query string with a character of the
    query percent-encode set, here an apostrophe: the URL has it
    percent-encoded. *)
Lemma C4_counterexample : ~ C4_as_stated apostrophe_query_event.
Proof. intros H. specialize (H _ eq_refl). discriminate H. Qed.

(** C9, amended: the method of the request is the method of the event; for
    a plain host name, a plain path and a plain query string, the path and
    the query of the URL are the raw path and the raw query string. *)
Theorem C9_method_path_query (event : Event) :
  (forall a request,
     createRemixRequest event a = Normal request -> method request = event_method event)
  /\ (forall h,
        request_host event = Some h ->
        URL.plain_hostname h = true ->
        plain_path (rawPath event) = true ->
        plain_query (rawQueryString event) = true ->
        exists u,
          request_url event = Normal u
          /\ URL.pathname u = rawPath event
          /\ default "" (URL.query u) = rawQueryString event
          /\ URL.search u = request_search event).
Proof.
  split.
  - by intros a request (u & _ & _ & Hm & _)%createRemixRequest_inv.
  - intros h Hhost Hh Hp Hq.
    destruct (request_url_plain event h Hhost Hh Hp Hq) as (path' & Hser & Hu).
    eexists. split; [exact Hu|]. split; [exact Hser|].
    unfold URL.search. simpl.
    destruct (request_search_cases event) as [[-> ->]|[Hne ->]]; [done|].
    apply eqb_false in Hne. by rewrite !Hne.
Qed.

Lemma C9_witness :
  request_host forwarded_event = Some "shop.example.com"
  /\ URL.plain_hostname "shop.example.com" = true
  /\ plain_path (rawPath forwarded_event) = true
  /\ plain_query (rawQueryString forwarded_event) = true
  /\ (exists request, createRemixRequest forwarded_event None = Normal request
                      /\ method request = "GET")
  /\ exists u, request_url forwarded_event = Normal u
               /\ URL.pathname u = "/cart"
               /\ default "" (URL.query u) = "id=7".
Proof.
  pose proof (C9_method_path_query forwarded_event) as [Hmethod Hurl].
  split; [reflexivity|]. split; [reflexivity|]. split; [reflexivity|].
  split; [reflexivity|]. split.
  - eexists. split; [reflexivity|]. exact (Hmethod None _ eq_refl).
  - destruct (Hurl "shop.example.com" eq_refl eq_refl eq_refl eq_refl)
      as (u & Hu & Hpath & Hquery & _).
    exists u. split; [exact Hu|]. split; [exact Hpath | exact Hquery].
Defined.

(** The claim as stated fails on a path with a dot segment: the URL has the
    path without it. *)
Lemma C9_counterexample : ~ C9_as_stated dot_path_event.
Proof.
  intros H. destruct (H None _ _ eq_refl eq_refl) as (_ & Hpath & _). discriminate Hpath.
Qed.
(** * More of the adapter *)

(** ** [bufferStream] *)

(** X1: [bufferStream] fulfils exactly on a stream that emits chunks and
    then ends, before any error; the buffer is the concatenation of the
    chunks emitted before the end, in their order. *)
Theorem X1_bufferStream_fulfils (s : Stream) (b : Buffer) :
  bufferStream (StreamBody s) = Normal b <->
  exists cs rest, s = (Data <$> cs) ++ End :: rest /\ b = Buffer_concat cs.
Proof. apply bufferStream_Normal. Qed.

(** X2: [bufferStream] rejects, with the error of the stream, exactly when
    the stream emits an error before any end, be the error named AbortError
    or not; it stays pending exactly when the stream emits chunks only; on a
    stream it fails in no other way. *)
Theorem X2_bufferStream_fails (s : Stream) :
  (bufferStream (StreamBody s) = Abrupt StreamError
   <-> exists cs rest, s = (Data <$> cs) ++ Error :: rest)
  /\ (bufferStream (StreamBody s) = Abrupt Unsettled <-> exists cs, s = Data <$> cs)
  /\ bufferStream (StreamBody s) <> Abrupt TypeError
  /\ bufferStream (StreamBody s) <> Abrupt Unmodelled
  /\ (bufferStream (StreamBody s) = Abrupt AbortError
      <-> exists cs rest, s = (Data <$> cs) ++ Aborted :: rest)
  /\ bufferStream (StreamBody s) <> Abrupt FetchError.
Proof.
  destruct (stream_shape s) as [cs [->|[[rest ->]|[[rest ->]|[rest ->]]]]].
  - rewrite bufferStream_open. repeat split; try done.
    + intros (cs' & rest & H). clash H.
    + by exists cs.
    + intros (cs' & rest & H). clash H.
  - rewrite bufferStream_end. repeat split; try done.
    + intros (cs' & rest' & H). clash H.
    + intros [cs' H]. clash H.
    + intros (cs' & rest' & H). clash H.
  - rewrite bufferStream_error. repeat split; try done.
    + by exists cs, rest.
    + intros [cs' H]. clash H.
    + intros (cs' & rest' & H). clash H.
  - rewrite bufferStream_aborted. repeat split; try done.
    + intros (cs' & rest' & H). clash H.
    + intros [cs' H]. clash H.
    + by exists cs, rest.
Qed.

(** X3: once the promise of [bufferStream] is settled, what the stream
    emits afterwards changes nothing. *)
Theorem X3_bufferStream_settles_once (s more : Stream) :
  bufferStream (StreamBody s) <> Abrupt Unsettled ->
  bufferStream (StreamBody (s ++ more)) = bufferStream (StreamBody s).
Proof.
  unfold bufferStream, outcome. rewrite foldl_app.
  destruct (settled (foldl on_event _ s)) as [c|] eqn:Hs; [|done].
  intros _. by rewrite (settled_stays _ more c).
Qed.

Lemma X3_witness :
  bufferStream (StreamBody failing_stream) <> Abrupt Unsettled
  /\ bufferStream (StreamBody (failing_stream ++ [End; Error])) = Abrupt StreamError.
Proof.
  assert (bufferStream (StreamBody failing_stream) <> Abrupt Unsettled) as H
    by discriminate.
  split; [exact H|].
  exact (X3_bufferStream_settles_once failing_stream [End; Error] H).
Defined.

(** ** [sendRemixResponse] *)

Lemma find_lower (h : Headers.t) (name : string) :
  Headers.find h (JS.toLowerCase name) = Headers.find h name.
Proof.
  induction h as [|[k vs] h IH]; simpl; [done|]. by rewrite toLowerCase_idem, IH.
Qed.

Lemma find_same_lower (h : Headers.t) (name name' : string) :
  JS.toLowerCase name = JS.toLowerCase name' -> Headers.find h name = Headers.find h name'.
Proof. intros H. by rewrite <- (find_lower h name), H, find_lower. Qed.

Lemma get_prop_found (h : Headers.t) (name key : string) :
  Headers.find h name = Some key -> is_Some (JS.get_prop h key).
Proof.
  intros [_ Hin]%find_Some. destruct (JS.get_prop h key) eqn:E; [by eexists|].
  by apply get_prop_None in E.
Qed.

Lemma fromEntries_Some_inv (l : list (string * string)) (k v : string) :
  Object_fromEntries l !! k = Some v -> (k, v) ∈ l.
Proof.
  induction l as [|[k' v'] l IH] using rev_ind.
  - unfold Object_fromEntries. simpl. by rewrite lookup_empty.
  - rewrite fromEntries_snoc, elem_of_app. destruct (decide (k' = k)) as [->|Hne].
    + rewrite lookup_insert_eq. intros [= ->]. right. left.
    + rewrite lookup_insert_ne by done. intros H. left. by apply IH.
Qed.

(** With the invariant, the header mapping of the reply answers for a name
    in lower case what [get] answers, and nothing for another name. *)
Lemma reply_lookup (h : Headers.t) (k : string) :
  well_formed h ->
  Object_fromEntries (Headers.entries h) !! k
  = if String.eqb (JS.toLowerCase k) k then header_value h k else None.
Proof.
  intros Hwf. destruct (String.eqb (JS.toLowerCase k) k) eqn:E.
  - apply eqb_true in E. unfold header_value.
    destruct (Headers.find h k) as [key|] eqn:F.
    + pose proof (find_Some _ _ _ F) as [Hkey _].
      destruct (get_prop_found _ _ _ F) as [vs Hvs]. rewrite Hvs. simpl.
      rewrite <- E, <- Hkey. by apply reply_lookup_Some.
    + apply reply_lookup_None. apply find_None in F. rewrite Forall_forall in F.
      intros key Hin Hkey. apply (F key Hin). by rewrite E.
  - apply eqb_false in E. apply reply_lookup_None. intros key Hin Hkey. apply E.
    by rewrite <- Hkey, toLowerCase_idem.
Qed.

Lemma header_value_delete_ne (h : Headers.t) (name name' : string) :
  JS.toLowerCase name <> JS.toLowerCase name' ->
  header_value (match Headers.find h name with
                | Some key => JS.delete_prop h key
                | None => h
                end) name'
  = header_value h name'.
Proof.
  intros Hne. destruct (Headers.find h name) as [key|] eqn:F; [|done].
  destruct (find_get_delete_ne h name name' Hne key F) as [Hfind Hget].
  unfold header_value. rewrite Hfind.
  destruct (Headers.find h name') as [key'|] eqn:F'; [|done]. by rewrite Hget.
Qed.

Lemma header_value_set_ne (h : Headers.t) (name name' : string) (vs : list string) :
  JS.toLowerCase name <> JS.toLowerCase name' ->
  header_value (JS.set_prop h (default name (Headers.find h name)) vs) name'
  = header_value h name'.
Proof.
  intros Hne. destruct (find_get_set_ne h name name' vs Hne) as [Hfind Hget].
  unfold header_value. rewrite Hfind.
  destruct (Headers.find h name') as [key'|] eqn:F'; [|done]. by rewrite Hget.
Qed.

(** The [delete] and the [set] of [sendRemixResponse] leave every other
    header as it is. *)
Lemma final_headers_header_value (response : NodeResponse) (a : AbortController)
    (h : Headers.t) (name : string) :
  final_headers response a = Normal h ->
  JS.toLowerCase name <> "set-cookie" ->
  aborted a = false \/ JS.toLowerCase name <> "connection" ->
  header_value h name = header_value (headers response) name.
Proof.
  unfold final_headers. rewrite delete_set_cookie. intros Hh Hcookie Hconn.
  assert (header_value
            (match Headers.find (headers response) "set-cookie" with
             | Some key => JS.delete_prop (headers response) key
             | None => headers response
             end) name = header_value (headers response) name) as Hdel.
  { apply header_value_delete_ne.
    change (JS.toLowerCase "set-cookie") with "set-cookie". congruence. }
  destruct (negb _); simpl in Hh; destruct (aborted a) eqn:Ha.
  - rewrite set_connection in Hh. injection Hh as <-.
    rewrite header_value_set_ne; [exact Hdel|].
    change (JS.toLowerCase "Connection") with "connection".
    destruct Hconn; [done | congruence].
  - injection Hh as <-. exact Hdel.
  - rewrite set_connection in Hh. injection Hh as <-.
    rewrite header_value_set_ne; [done|].
    change (JS.toLowerCase "Connection") with "connection".
    destruct Hconn; [done | congruence].
  - by injection Hh as <-.
Qed.

Lemma get_header_value (h : Headers.t) (name : string) :
  Headers.validName name = true -> Headers.get h name = Normal (header_value h name).
Proof.
  intros Hn. unfold Headers.get, Headers.validateName, header_value.
  rewrite Hn, bind_Normal. destruct (Headers.find h name) as [key|]; [|done].
  by destruct (JS.get_prop h key).
Qed.

(** X4: [sendRemixResponse] fails through the body only, and the body says
    how.  A stream that emits an error before any end makes it reject with
    that error when the response is classified as binary, with a FetchError
    around it when it is not, and in both cases with the error itself when
    it is named AbortError; a stream that never ends leaves it pending; a
    body that is no stream makes it reject with a TypeError when the
    response is classified as binary, and does not make it fail when it is
    not.  Nothing else in it throws. *)
Theorem X4_sendRemixResponse_fails (binaryTypes : list string) (response : NodeResponse)
    (a : AbortController) (k : abrupt) :
  sendRemixResponse binaryTypes response a = Abrupt k <->
  match body response with
  | StreamBody s =>
      ((exists cs rest, s = (Data <$> cs) ++ Error :: rest)
       /\ k = if is_binary binaryTypes response then StreamError else FetchError)
      \/ ((exists cs rest, s = (Data <$> cs) ++ Aborted :: rest) /\ k = AbortError)
      \/ ((exists cs, s = Data <$> cs) /\ k = Unsettled)
  | NullBody | BufferBody _ => is_binary binaryTypes response = true /\ k = TypeError
  end.
Proof.
  destruct (sendRemixResponse_eq binaryTypes response a) as (h & ct & _ & Hct & ->).
  rewrite get_header_value in Hct by done. injection Hct as <-.
  fold (is_binary binaryTypes response). rewrite bind_Abrupt.
  unfold body_string, Response_text.
  destruct (body response) as [|b|s]; destruct (is_binary binaryTypes response);
    rewrite ?bind_Abrupt.
  - split; [by intros [= <-] | by intros [_ ->]].
  - split; [done | by intros [? _]].
  - split; [by intros [= <-] | by intros [_ ->]].
  - split; [done | by intros [? _]].
  - apply bufferStream_Abrupt.
  - apply consumeBody_Abrupt.
Qed.

(** X5: every header of the response other than [Set-Cookie] (and, when the
    signal is aborted, [Connection]) is in the header mapping of the reply
    under its name in lower case, its values joined by a comma and a space;
    a header the response does not have is not in the mapping. *)
Theorem X5_headers_pass_through (binaryTypes : list string) (response : NodeResponse)
    (a : AbortController) (reply : Reply) (name : string) :
  Headers.wf (headers response) = true ->
  sendRemixResponse binaryTypes response a = Normal reply ->
  JS.toLowerCase name <> "set-cookie" ->
  aborted a = false \/ JS.toLowerCase name <> "connection" ->
  reply_headers reply !! JS.toLowerCase name = header_value (headers response) name.
Proof.
  intros Hwf%wf_well_formed Hsend Hcookie Hconn.
  destruct (sendRemixResponse_eq binaryTypes response a) as (h & ct & Hh & _ & Heq).
  rewrite Heq in Hsend. destruct (body_string _ response); [|done].
  rewrite bind_Normal in Hsend. injection Hsend as <-. simpl.
  destruct (final_headers_no_set_cookie _ _ _ Hwf Hh) as [_ Hwf'].
  rewrite reply_lookup by done. rewrite toLowerCase_idem, String.eqb_refl.
  unfold header_value at 1. rewrite find_lower. fold (header_value h name).
  by apply final_headers_header_value with a.
Qed.

Lemma X5_witness :
  Headers.wf (headers text_response) = true
  /\ JS.toLowerCase "Content-Type" <> "set-cookie"
  /\ (exists reply,
        sendRemixResponse ["image/png"] text_response (mkAbortController true)
        = Normal reply)
  /\ forall reply,
       sendRemixResponse ["image/png"] text_response (mkAbortController true)
       = Normal reply ->
       reply_headers reply !! "content-type" = Some "text/plain".
Proof.
  assert (JS.toLowerCase "Content-Type" <> "set-cookie") as H1 by discriminate.
  assert (JS.toLowerCase "Content-Type" <> "connection") as H2 by discriminate.
  split; [reflexivity|]. split; [exact H1|]. split; [by eexists|].
  intros reply Hreply.
  exact (X5_headers_pass_through ["image/png"] text_response (mkAbortController true)
           reply "Content-Type" eq_refl Hreply H1 (or_intror H2)).
Defined.

(** X6: every name of the header mapping of the reply is in lower case, and
    comes from a header of the response or is the [connection] of an
    aborted signal. *)
Theorem X6_reply_names_lower_case (binaryTypes : list string) (response : NodeResponse)
    (a : AbortController) (reply : Reply) (k v : string) :
  sendRemixResponse binaryTypes response a = Normal reply ->
  reply_headers reply !! k = Some v ->
  JS.toLowerCase k = k
  /\ (is_Some (Headers.find (headers response) k)
      \/ (aborted a = true /\ k = "connection")).
Proof.
  intros Hsend Hk.
  destruct (sendRemixResponse_eq binaryTypes response a) as (h & ct & Hh & _ & Heq).
  rewrite Heq in Hsend. destruct (body_string _ response); [|done].
  rewrite bind_Normal in Hsend. injection Hsend as <-. simpl in Hk.
  apply fromEntries_Some_inv, elem_of_entries in Hk as (key & Hin & -> & _).
  split; [apply toLowerCase_idem|]. rewrite find_lower.
  revert Hh Hin. unfold final_headers. rewrite delete_set_cookie.
  set (h1 := match Headers.find (headers response) "set-cookie" with
             | Some key => JS.delete_prop (headers response) key
             | None => headers response
             end).
  assert (forall x, x ∈ h1.*1 -> x ∈ (headers response).*1) as Hsub.
  { unfold h1. destruct (Headers.find _ _); [apply keys_delete_prop | done]. }
  assert (forall x, x ∈ (headers response).*1 ->
                    is_Some (Headers.find (headers response) x)) as Hfound.
  { intros x Hx. destruct (Headers.find (headers response) x) eqn:F; [by eexists|].
    apply find_None in F. rewrite Forall_forall in F. by destruct (F x Hx). }
  assert (forall h2, (h2 = h1 \/ h2 = headers response) ->
                     forall x, x ∈ h2.*1 -> x ∈ (headers response).*1) as Hsub'.
  { intros h2 [-> | ->]; [exact Hsub | done]. }
  destruct (negb _); simpl; destruct (aborted a); rewrite ?set_connection;
    intros [= <-] Hin.
  all: try (left; apply Hfound; eauto; fail).
  all: rewrite keys_set_prop in Hin; case_bool_decide as Hmem;
    [left; apply Hfound; eauto|];
    apply elem_of_app in Hin as [Hin|Hin]; [left; apply Hfound; eauto|];
    apply list_elem_of_singleton in Hin as ->;
    match goal with
    | |- context [default "Connection" (Headers.find ?h0 "Connection")] =>
        destruct (Headers.find h0 "Connection") as [key'|] eqn:F; simpl in *
    end;
    [apply find_Some in F as [_ F]; left; apply Hfound; eauto
    | right; by split].
Qed.

Lemma X6_witness :
  (exists reply,
     sendRemixResponse ["image/png"] text_response (mkAbortController true)
     = Normal reply /\ reply_headers reply !! "connection" = Some "close")
  /\ forall reply,
       sendRemixResponse ["image/png"] text_response (mkAbortController true)
       = Normal reply ->
       reply_headers reply !! "connection" = Some "close" ->
       JS.toLowerCase "connection" = "connection"
       /\ (is_Some (Headers.find (headers text_response) "connection")
           \/ (aborted (mkAbortController true) = true /\ "connection" = "connection")).
Proof.
  split; [eexists; split; reflexivity|].
  intros reply Hreply Hk.
  exact (X6_reply_names_lower_case ["image/png"] text_response (mkAbortController true)
           reply "connection" "close" Hreply Hk).
Defined.

(** X7: the cookie list of the reply is empty exactly when the response has
    no [Set-Cookie] header. *)
Theorem X7_no_cookies (binaryTypes : list string) (response : NodeResponse)
    (a : AbortController) (reply : Reply) :
  Headers.wf (headers response) = true ->
  sendRemixResponse binaryTypes response a = Normal reply ->
  cookies reply = [] <-> Headers.find (headers response) "set-cookie" = None.
Proof.
  intros Hwf%wf_well_formed Hsend.
  destruct (sendRemixResponse_eq binaryTypes response a) as (h & ct & _ & _ & Heq).
  rewrite Heq in Hsend. destruct (body_string _ response); [|done].
  rewrite bind_Normal in Hsend. injection Hsend as <-. simpl.
  rewrite collect_cookies_values. split.
  - by apply set_cookie_values_nil.
  - apply set_cookie_values_none.
Qed.

Lemma X7_witness :
  Headers.wf (headers image_response) = true
  /\ Headers.find (headers image_response) "set-cookie" = None
  /\ exists reply,
       sendRemixResponse ["image/png"] image_response (mkAbortController false)
       = Normal reply
       /\ cookies reply = [].
Proof.
  split; [reflexivity|]. split; [reflexivity|].
  eexists. split; [reflexivity|].
  exact (proj2 (X7_no_cookies ["image/png"] image_response (mkAbortController false)
                  _ eq_refl eq_refl) eq_refl).
Defined.

(** X8: the abort changes nothing of the reply but the [connection] entry
    of its header mapping: status, cookies, body and base64 flag are those of
    the reply without the abort, and so is every other header. *)
Theorem X8_abort_frame (binaryTypes : list string) (response : NodeResponse)
    (a a' : AbortController) (reply reply' : Reply) :
  Headers.wf (headers response) = true ->
  sendRemixResponse binaryTypes response a = Normal reply ->
  sendRemixResponse binaryTypes response a' = Normal reply' ->
  statusCode reply = statusCode reply'
  /\ cookies reply = cookies reply'
  /\ reply_body reply = reply_body reply'
  /\ isBase64Encoded reply = isBase64Encoded reply'
  /\ forall k, k <> "connection" -> reply_headers reply !! k = reply_headers reply' !! k.
Proof.
  intros Hwf%wf_well_formed Hsend Hsend'.
  destruct (sendRemixResponse_eq binaryTypes response a) as (h & ct & Hh & Hct & Heq).
  destruct (sendRemixResponse_eq binaryTypes response a') as (h' & ct' & Hh' & Hct' & Heq').
  rewrite Heq in Hsend. rewrite Heq' in Hsend'. rewrite Hct in Hct'. injection Hct' as <-.
  destruct (body_string _ response); [|done].
  rewrite bind_Normal in Hsend, Hsend'. injection Hsend as <-. injection Hsend' as <-. simpl.
  repeat split; try done.
  intros k Hk.
  destruct (final_headers_no_set_cookie _ _ _ Hwf Hh) as [Hnone Hwf1].
  destruct (final_headers_no_set_cookie _ _ _ Hwf Hh') as [Hnone' Hwf1'].
  rewrite !reply_lookup by done.
  destruct (String.eqb (JS.toLowerCase k) k) eqn:E; [|done]. apply eqb_true in E.
  destruct (decide (k = "set-cookie")) as [->|Hcookie].
  - unfold header_value. by rewrite Hnone, Hnone'.
  - assert (JS.toLowerCase k <> "set-cookie") as H1 by congruence.
    assert (JS.toLowerCase k <> "connection") as H2 by congruence.
    by rewrite (final_headers_header_value response a h k Hh H1 (or_intror H2)),
      (final_headers_header_value response a' h' k Hh' H1 (or_intror H2)).
Qed.

Lemma X8_witness :
  Headers.wf (headers text_response) = true
  /\ exists reply reply',
       sendRemixResponse ["image/png"] text_response (mkAbortController true)
       = Normal reply
       /\ sendRemixResponse ["image/png"] text_response (mkAbortController false)
          = Normal reply'
       /\ reply_headers reply !! "connection" = Some "close"
       /\ reply_headers reply' !! "connection" = None
       /\ reply_body reply = reply_body reply'
       /\ reply_headers reply !! "content-type" = reply_headers reply' !! "content-type".
Proof.
  assert ("content-type" <> "connection") as Hne by discriminate.
  split; [reflexivity|]. eexists _, _.
  split; [reflexivity|]. split; [reflexivity|]. split; [reflexivity|].
  split; [reflexivity|].
  destruct (X8_abort_frame ["image/png"] text_response (mkAbortController true)
              (mkAbortController false) _ _ eq_refl eq_refl eq_refl)
    as (_ & _ & Hbody & _ & Hheaders).
  split; [exact Hbody | exact (Hheaders "content-type" Hne)].
Defined.

(** X21: for a response whose body is a stream that emits chunks and then
    ends, the body of the reply is the string of the buffer that
    concatenates the chunks emitted before the end, whether the response is
    classified as binary, and drained by [bufferStream], or not, and read by
    [text]; the reply is flagged base64 in the first case and not in the
    second. *)
Theorem X21_stream_body_materialization (binaryTypes : list string)
    (response : NodeResponse) (a : AbortController) (cs : list Buffer) (rest : Stream) :
  body response = StreamBody ((Data <$> cs) ++ End :: rest) ->
  exists reply contentType,
    sendRemixResponse binaryTypes response a = Normal reply
    /\ Headers.get (headers response) "content-type" = Normal contentType
    /\ reply_body reply = Utf8 (Buffer_concat cs)
    /\ (classify binaryTypes contentType = true ->
        bufferStream (body response) = Normal (Buffer_concat cs)
        /\ isBase64Encoded reply = true)
    /\ (classify binaryTypes contentType = false ->
        Response_text response = Normal (reply_body reply)
        /\ isBase64Encoded reply = false).
Proof.
  intros Hbody.
  pose proof (bufferStream_end cs rest) as Hdrain. rewrite <- Hbody in Hdrain.
  destruct (sendRemixResponse_drained binaryTypes response a _ Hdrain)
    as (h & ct & _ & Hct & Hsend).
  eexists _, ct. split; [exact Hsend|]. split; [exact Hct|]. simpl.
  split; [done|]. split; [done|].
  intros Hc. split; [|done]. by apply Response_text_drained.
Qed.

Lemma X21_witness :
  body image_response
  = StreamBody ((Data <$> [[Byte.x89; Byte.x50]; [Byte.x4e; Byte.x47]]) ++ End :: [])
  /\ exists reply contentType,
       sendRemixResponse ["image/png"] image_response (mkAbortController false)
       = Normal reply
       /\ Headers.get (headers image_response) "content-type" = Normal contentType
       /\ reply_body reply = Utf8 [Byte.x89; Byte.x50; Byte.x4e; Byte.x47]
       /\ (classify ["image/png"] contentType = true ->
           bufferStream (body image_response)
           = Normal [Byte.x89; Byte.x50; Byte.x4e; Byte.x47]
           /\ isBase64Encoded reply = true)
       /\ (classify ["image/png"] contentType = false ->
           Response_text image_response = Normal (reply_body reply)
           /\ isBase64Encoded reply = false).
Proof.
  split; [reflexivity|].
  exact (X21_stream_body_materialization ["image/png"] image_response
           (mkAbortController false) [[Byte.x89; Byte.x50]; [Byte.x4e; Byte.x47]] []
           eq_refl).
Defined.

(** ** [createRemixHeaders] *)

Lemma values_of_same_lower (h : Headers.t) (name name' : string) :
  JS.toLowerCase name = JS.toLowerCase name' -> values_of h name = values_of h name'.
Proof. intros H. unfold values_of. by rewrite (find_same_lower h name name'). Qed.

Lemma find_append (h h' : Headers.t) (name name' value : string) :
  Headers.append h name value = Normal h' ->
  Headers.find h' name'
  = match Headers.find h name' with
    | Some key => Some key
    | None => if String.eqb (JS.toLowerCase name) (JS.toLowerCase name')
              then Some name else None
    end.
Proof.
  intros Happ. destruct (String.eqb _ _) eqn:E.
  - apply eqb_true in E. rewrite <- !(find_same_lower _ name name') by done.
    destruct (append_inv _ _ _ _ Happ) as [Hn Hv].
    rewrite append_Normal in Happ by done. injection Happ as <-.
    destruct (Headers.find h name) as [key|] eqn:F.
    + pose proof (find_Some _ _ _ F) as [_ Hin].
      rewrite (find_keys _ h name), F; [done|].
      rewrite keys_set_prop. by rewrite bool_decide_eq_true_2.
    + assert (name ∉ h.*1) as Hnew.
      { apply find_None in F. rewrite Forall_forall in F. intros Hin. by apply (F name). }
      rewrite set_prop_new by done. rewrite find_app, F. simpl.
      by rewrite String.eqb_refl.
  - apply eqb_false in E. destruct (find_append_ne _ _ _ _ _ E Happ) as [-> _].
    by destruct (Headers.find h name').
Qed.

Lemma matching_values_cons (header : string) (value : option string)
    (o : JS.object (option string)) (name : string) :
  matching_values ((header, value) :: o) name
  = (if JS.truthy value && String.eqb (JS.toLowerCase header) (JS.toLowerCase name)
     then [default "" value] else [])
      ++ matching_values o name.
Proof. reflexivity. Qed.

Lemma append_headers_values (headers h : Headers.t) (entries : JS.object (option string))
    (name : string) :
  append_headers headers entries = Normal h ->
  values_of h name = values_of headers name ++ matching_values entries name.
Proof.
  revert headers. induction entries as [|[header value] entries IH]; intros headers.
  - simpl. intros [= <-]. by rewrite app_nil_r.
  - simpl append_headers. rewrite matching_values_cons.
    destruct (JS.truthy value); simpl.
    + destruct (Headers.append headers header (default "" value)) as [h1|] eqn:Happ;
        [|done].
      rewrite bind_Normal. intros Hrest%IH. rewrite Hrest.
      destruct (String.eqb _ _) eqn:E.
      * apply eqb_true in E.
        rewrite <- (values_of_same_lower h1 header name),
          <- (values_of_same_lower headers header name) by done.
        rewrite (values_of_append_eq _ _ _ _ Happ). by rewrite <- app_assoc.
      * apply eqb_false in E. by rewrite (values_of_append_ne _ _ _ _ _ E Happ).
    + apply IH.
Qed.

Lemma append_headers_find (headers h : Headers.t) (entries : JS.object (option string))
    (name : string) :
  append_headers headers entries = Normal h ->
  Headers.find h name
  = match Headers.find headers name with
    | Some key => Some key
    | None => first_spelling entries name
    end.
Proof.
  revert headers. induction entries as [|[header value] entries IH]; intros headers.
  - simpl. intros [= <-]. by destruct (Headers.find headers name).
  - simpl. destruct (JS.truthy value); simpl.
    + destruct (Headers.append headers header (default "" value)) as [h1|] eqn:Happ;
        [|done].
      rewrite bind_Normal. intros Hrest%IH. rewrite Hrest, (find_append _ _ _ _ _ Happ).
      destruct (Headers.find headers name); [done|]. by destruct (String.eqb _ _).
    + apply IH.
Qed.

Lemma createRemixHeaders_values (requestHeaders : JS.object (option string))
    (requestCookies : option (list string)) (h : Headers.t) (name : string) :
  createRemixHeaders requestHeaders requestCookies = Normal h ->
  values_of h name
  = matching_values requestHeaders name
      ++ match requestCookies with
         | Some cookies =>
             if String.eqb (JS.toLowerCase name) "cookie"
             then [JS.join "; " cookies] else []
         | None => []
         end.
Proof.
  unfold createRemixHeaders.
  destruct (append_headers Headers.empty requestHeaders) as [base|] eqn:Hbase; [|done].
  rewrite bind_Normal. pose proof (append_headers_values _ _ _ name Hbase) as Hvalues.
  simpl in Hvalues. destruct requestCookies as [cookies|].
  - intros Happ. destruct (String.eqb _ _) eqn:E.
    + apply eqb_true in E.
      rewrite <- (values_of_same_lower h "Cookie" name) by done.
      rewrite (values_of_append_eq _ _ _ _ Happ).
      by rewrite (values_of_same_lower base "Cookie" name), Hvalues.
    + apply eqb_false in E.
      assert (JS.toLowerCase "Cookie" <> JS.toLowerCase name) as Hne.
      { change (JS.toLowerCase "Cookie") with "cookie". congruence. }
      rewrite (values_of_append_ne _ _ "Cookie" name _ Hne Happ).
      by rewrite Hvalues, app_nil_r.
  - intros [= <-]. by rewrite Hvalues, app_nil_r.
Qed.

(** X9: the headers [createRemixHeaders] returns hold, for every name and
    whatever its case, the values of the event's entries of that name that
    are neither absent nor empty, in the order of the entries, followed for
    [cookie] by the joined cookie list. *)
Theorem X9_createRemixHeaders_values (requestHeaders : JS.object (option string))
    (requestCookies : option (list string)) (h : Headers.t) (name : string) :
  createRemixHeaders requestHeaders requestCookies = Normal h ->
  values_of h name
  = matching_values requestHeaders name
      ++ match requestCookies with
         | Some cookies =>
             if String.eqb (JS.toLowerCase name) "cookie"
             then [JS.join "; " cookies] else []
         | None => []
         end.
Proof. apply createRemixHeaders_values. Qed.

Lemma X9_witness :
  exists h,
    createRemixHeaders (event_headers spellings_event) (event_cookies spellings_event)
    = Normal h
    /\ values_of h "ACCEPT" = ["text/html"; "image/png"]
    /\ values_of h "x-empty" = []
    /\ values_of h "cookie" = ["a=1"].
Proof.
  eexists. split; [reflexivity|].
  split; [|split].
  - exact (X9_createRemixHeaders_values (event_headers spellings_event)
             (event_cookies spellings_event) _ "ACCEPT" eq_refl).
  - exact (X9_createRemixHeaders_values (event_headers spellings_event)
             (event_cookies spellings_event) _ "x-empty" eq_refl).
  - exact (X9_createRemixHeaders_values (event_headers spellings_event)
             (event_cookies spellings_event) _ "cookie" eq_refl).
Defined.

Lemma append_illegal (h : Headers.t) (name value : string) :
  Headers.validName name && Headers.validValue value = false ->
  Headers.append h name value = Abrupt TypeError.
Proof.
  unfold Headers.append, Headers.validateName, Headers.validateValue.
  destruct (Headers.validName name); [|done]. simpl. by intros ->.
Qed.

Lemma append_headers_illegal (headers : Headers.t) (entries : JS.object (option string)) :
  legal_headers entries = false -> append_headers headers entries = Abrupt TypeError.
Proof.
  revert headers. induction entries as [|[header value] entries IH]; intros headers;
    [done|].
  simpl. unfold legal_entry. simpl. destruct (JS.truthy value); simpl.
  - destruct (Headers.validName header && Headers.validValue (default "" value)) eqn:E.
    + apply andb_prop in E as [Hn Hv]. rewrite append_Normal, bind_Normal by done.
      apply IH.
    + intros _. by rewrite append_illegal.
  - apply IH.
Qed.

(** X10: [createRemixHeaders] returns when every entry it appends has a
    token for name and a value without control characters, and so has the
    joined cookie list; otherwise it throws a TypeError. *)
Theorem X10_createRemixHeaders_throws (requestHeaders : JS.object (option string))
    (requestCookies : option (list string)) :
  (legal_headers requestHeaders && legal_cookies requestCookies = true ->
   exists h, createRemixHeaders requestHeaders requestCookies = Normal h)
  /\ (legal_headers requestHeaders && legal_cookies requestCookies = false ->
      createRemixHeaders requestHeaders requestCookies = Abrupt TypeError).
Proof.
  unfold createRemixHeaders. split.
  - intros [Hh Hc]%andb_prop.
    destruct (append_headers_Normal Headers.empty _ Hh) as [base ->].
    rewrite bind_Normal. destruct requestCookies as [cookies|]; [|by eexists].
    simpl in Hc. rewrite append_Normal by done. by eexists.
  - intros H. destruct (legal_headers requestHeaders) eqn:Hh.
    + destruct (append_headers_Normal Headers.empty _ Hh) as [base ->].
      rewrite bind_Normal. destruct requestCookies as [cookies|]; [|done].
      simpl in H. by apply append_illegal.
    + by rewrite append_headers_illegal.
Qed.

Lemma X10_witness :
  legal_headers (event_headers illegal_name_event)
    && legal_cookies (event_cookies illegal_name_event) = false
  /\ createRemixHeaders (event_headers illegal_name_event)
       (event_cookies illegal_name_event) = Abrupt TypeError
  /\ legal_headers (event_headers spellings_event)
       && legal_cookies (event_cookies spellings_event) = true
  /\ exists h,
       createRemixHeaders (event_headers spellings_event) (event_cookies spellings_event)
       = Normal h.
Proof.
  split; [reflexivity|]. split.
  - exact (proj2 (X10_createRemixHeaders_throws (event_headers illegal_name_event)
                    (event_cookies illegal_name_event)) eq_refl).
  - split; [reflexivity|].
    exact (proj1 (X10_createRemixHeaders_throws (event_headers spellings_event)
                    (event_cookies spellings_event)) eq_refl).
Defined.

(** X11: in the headers [createRemixHeaders] returns no two names are the
    same up to case: entries of the event that differ by case only are one
    header. *)
Theorem X11_createRemixHeaders_names (requestHeaders : JS.object (option string))
    (requestCookies : option (list string)) (h : Headers.t) (k1 k2 : string) :
  createRemixHeaders requestHeaders requestCookies = Normal h ->
  k1 ∈ h.*1 -> k2 ∈ h.*1 -> JS.toLowerCase k1 = JS.toLowerCase k2 -> k1 = k2.
Proof.
  intros Hh%createRemixHeaders_well_formed%wf_well_formed. by apply well_formed_keys_inj.
Qed.

Lemma X11_witness :
  exists h,
    createRemixHeaders (event_headers spellings_event) (event_cookies spellings_event)
    = Normal h
    /\ h.*1 = ["Accept"; "host"; "Cookie"]
    /\ forall k, k ∈ h.*1 -> JS.toLowerCase k = "accept" -> k = "Accept".
Proof.
  eexists. split; [reflexivity|]. split; [reflexivity|].
  intros k Hk Hlow.
  assert ("Accept" ∈ ["Accept"; "host"; "Cookie"]) as Hin by left.
  exact (X11_createRemixHeaders_names (event_headers spellings_event)
           (event_cookies spellings_event) _ k "Accept" eq_refl Hk Hin Hlow).
Defined.

(** X12: a header is stored under the first spelling the event gives it
    among its entries with a value ([Cookie] for the cookie list when the
    event has none), and a name with no such entry is not in the headers. *)
Theorem X12_createRemixHeaders_spelling (requestHeaders : JS.object (option string))
    (requestCookies : option (list string)) (h : Headers.t) (name : string) :
  createRemixHeaders requestHeaders requestCookies = Normal h ->
  Headers.find h name
  = match first_spelling requestHeaders name with
    | Some key => Some key
    | None =>
        match requestCookies with
        | Some _ => if String.eqb (JS.toLowerCase name) "cookie" then Some "Cookie" else None
        | None => None
        end
    end.
Proof.
  unfold createRemixHeaders.
  destruct (append_headers Headers.empty requestHeaders) as [base|] eqn:Hbase; [|done].
  rewrite bind_Normal. pose proof (append_headers_find _ _ _ name Hbase) as Hfind.
  simpl in Hfind. destruct requestCookies as [cookies|].
  - intros Happ. rewrite (find_append _ _ _ _ _ Happ), Hfind.
    destruct (first_spelling requestHeaders name); [done|].
    change (JS.toLowerCase "Cookie") with "cookie".
    by rewrite (String.eqb_sym "cookie").
  - intros [= <-]. rewrite Hfind. by destruct (first_spelling requestHeaders name).
Qed.

Lemma X12_witness :
  exists h,
    createRemixHeaders (event_headers spellings_event) (event_cookies spellings_event)
    = Normal h
    /\ Headers.find h "accept" = Some "Accept"
    /\ Headers.find h "x-empty" = None
    /\ Headers.find h "x-none" = None.
Proof.
  eexists. split; [reflexivity|]. split; [|split].
  - exact (X12_createRemixHeaders_spelling (event_headers spellings_event)
             (event_cookies spellings_event) _ "accept" eq_refl).
  - exact (X12_createRemixHeaders_spelling (event_headers spellings_event)
             (event_cookies spellings_event) _ "x-empty" eq_refl).
  - exact (X12_createRemixHeaders_spelling (event_headers spellings_event)
             (event_cookies spellings_event) _ "x-none" eq_refl).
Defined.

(** ** [createRemixRequest] *)

Lemma span_app (p : ascii -> bool) (a s : string) :
  JS.all_chars p a = true ->
  match s with String c _ => p c = false | EmptyString => True end ->
  URL.span p (a +:+ s) = (a, s).
Proof.
  intros Ha Hs. induction a as [|x a IH].
  - rewrite string_app_nil_l. destruct s as [|c s]; [done|]. simpl. by rewrite Hs.
  - simpl in Ha. apply andb_prop in Ha as [Hx Ha]. rewrite string_app_cons. simpl.
    by rewrite Hx, (IH Ha).
Qed.

Lemma plain_hostname_hostname_chars (st : URL.label_state) (s : string) :
  URL.plain_hostname_from st s = true -> JS.all_chars hostname_char s = true.
Proof.
  revert st. induction s as [|c s IH]; intros st; [done|].
  rewrite plain_hostname_from_cons.
  change (JS.all_chars ?p (String c s)) with (p c && JS.all_chars p s). cbv beta.
  unfold hostname_char at 1. destruct st as [|al hy].
  - destruct (URL.ascii_alpha c); [intros H; by apply IH in H|].
    destruct (URL.ascii_digit c); [|done]. intros H. by apply IH in H.
  - destruct (URL.ascii_alpha c || URL.ascii_digit c).
    { intros H. by apply IH in H. }
    destruct (URL.is_in [45]%N c).
    { intros [_ H]%andb_prop. by apply IH in H. }
    destruct (URL.is_in [46]%N c); [|done].
    intros [_ H]%andb_prop. by apply IH in H.
Qed.

Lemma hostname_char_spec (c : ascii) :
  hostname_char c = true ->
  visible c = true /\ URL.slash c = false
  /\ negb (URL.is_in [47; 92; 63; 35]%N c) = true /\ negb (URL.is_in [58]%N c) = true.
Proof. destruct c as [[] [] [] [] [] [] [] []]; done. Qed.

Lemma digit_spec (c : ascii) :
  URL.ascii_digit c = true -> visible c = true.
Proof. destruct c as [[] [] [] [] [] [] [] []]; done. Qed.

(** The host and the port of the URL are those of the base when the input
    starts with one slash. *)
Lemma new_single_slash (input base : string) (host : string) (port : option N) :
  URL.parse_base base = Normal (host, port) ->
  single_slash (URL.clean input) = true ->
  (forall u, URL.new input base = Normal u -> URL.hostname u = host /\ URL.port u = port)
  /\ (no_caret input = true -> exists u, URL.new input base = Normal u).
Proof.
  intros Hbase Hslash. unfold URL.new. rewrite Hbase, bind_Normal.
  destruct (parse_relative_single_slash _ (host, port) Hslash) as (c & s & Hclean & ->).
  split.
  - intros u. apply path_state_host.
  - intros Hcaret. apply path_state_Normal.
    pose proof (all_chars_clean _ _ Hcaret) as Hall.
    rewrite Hclean in Hall. simpl in Hall. by apply andb_prop in Hall as [_ ?].
Qed.

(** X13: an event with neither a forwarded host nor a host header does not
    make [createRemixRequest] fail: the host of the URL is [undefined]. *)
Theorem X13_missing_host (event : Event) :
  JS.truthy (header_of event "x-forwarded-host") = false ->
  header_of event "host" = None ->
  single_slash (URL.clean (rawPath event +:+ request_search event)) = true ->
  (forall u, request_url event = Normal u -> URL.host u = "undefined")
  /\ (no_caret (rawPath event) = true -> no_caret (rawQueryString event) = true ->
      exists u, request_url event = Normal u).
Proof.
  intros Hx Hh Hslash. unfold request_url, request_host, JS.or_else. rewrite Hx, Hh.
  simpl JS.template.
  destruct (new_single_slash (rawPath event +:+ request_search event)
              "https://undefined" "undefined" None eq_refl Hslash) as [Hhost Hex].
  split.
  - intros u [Hname Hport]%Hhost. unfold URL.host. by rewrite Hport, Hname.
  - intros Hp Hq. apply Hex. by apply no_caret_search.
Qed.

Lemma X13_witness :
  JS.truthy (header_of hostless_event "x-forwarded-host") = false
  /\ header_of hostless_event "host" = None
  /\ (exists u, request_url hostless_event = Normal u
                /\ URL.href u = "https://undefined/cart?id=7")
  /\ forall u, request_url hostless_event = Normal u -> URL.host u = "undefined".
Proof.
  split; [reflexivity|]. split; [reflexivity|].
  split; [eexists; split; reflexivity|].
  exact (proj1 (X13_missing_host hostless_event eq_refl eq_refl eq_refl)).
Defined.

Lemma plain_hostname_cons (a : string) :
  URL.plain_hostname a = true ->
  exists c a', a = String c a' /\ URL.slash c = false.
Proof.
  intros Ha. pose proof (plain_hostname_hostname_chars _ _ Ha) as Hall.
  destruct a as [|c a']; [done|]. exists c, a'. split; [done|].
  simpl in Hall. apply andb_prop in Hall as [Hc _].
  by apply hostname_char_spec in Hc as (_ & ? & _).
Qed.

(** X14: a raw path that starts with two slashes is read as an authority:
    the host of the URL is the host name after the slashes, in lower case,
    whatever the headers of the event say, and the path of the URL is what
    follows that name. *)
Theorem X14_double_slash_host (event : Event) (h a p : string) :
  request_host event = Some h ->
  URL.plain_hostname h = true ->
  rawPath event = "//" +:+ a +:+ p ->
  URL.plain_hostname a = true ->
  plain_path p = true ->
  plain_query (rawQueryString event) = true ->
  exists u,
    request_url event = Normal u
    /\ URL.host u = JS.toLowerCase a
    /\ URL.pathname u = p
    /\ default "" (URL.query u) = rawQueryString event.
Proof.
  intros Hhost Hh Hpath Ha Hp Hq. unfold request_url, URL.new.
  rewrite Hhost. simpl JS.template. rewrite parse_base_plain, bind_Normal by done.
  rewrite Hpath. unfold URL.parse_relative.
  pose proof (plain_hostname_hostname_chars _ _ Ha) as Hachars.
  destruct p as [|c rest]; [done|]. simpl in Hp.
  apply andb_prop in Hp as [[Hc Hstart]%andb_prop Hrest]. apply is_slash in Hc as ->.
  pose proof (plain_segments_visible _ _ Hrest) as Hvis.
  assert (JS.all_chars visible (request_search event) = true) as Hsvis.
  { destruct (request_search_cases event) as [[_ ->]|[_ ->]]; [done|]. simpl.
    by apply plain_query_visible. }
  rewrite clean_visible.
  2:{ rewrite !all_chars_app. simpl. rewrite Hvis, Hsvis, !andb_true_r.
      revert Hachars. apply all_chars_impl. intros c Hc.
      by apply hostname_char_spec in Hc as (? & _). }
  rewrite !string_app_assoc.
  change ("//" +:+ ?s) with (String "/" (String "/" s)). cbv iota beta.
  change (URL.slash "/") with true. cbv iota.
  destruct (plain_hostname_cons a Ha) as (c & a' & Hacons & Hslash).
  assert (URL.skip_slashes (a +:+ String "/" rest +:+ request_search event)
          = a +:+ String "/" rest +:+ request_search event) as ->.
  { rewrite Hacons, string_app_cons. simpl. by rewrite Hslash. }
  rewrite span_app; [|revert Hachars; apply all_chars_impl; intros x Hx;
                       by apply hostname_char_spec in Hx as (_ & _ & ? & _)|done].
  rewrite parse_authority_plain, bind_Normal by done.
  rewrite string_app_cons. simpl URL.path_start_state.
  rewrite (path_state_plain (JS.toLowerCase a) None rest [] "" (request_search event) Hrest).
  2:{ destruct (request_search_cases event) as [[_ ->]|[_ ->]]; [by left|].
      right. by eexists. }
  destruct (request_search_cases event) as [[Hempty ->]|[Hne ->]]; simpl.
  - eexists. split; [done|]. unfold URL.host, URL.pathname. simpl.
    rewrite serialize_segments. by rewrite Hempty.
  - rewrite query_state_plain by done. eexists. split; [done|].
    unfold URL.host, URL.pathname. simpl. by rewrite serialize_segments.
Qed.

Lemma X14_witness :
  request_host double_slash_query_event = Some "shop.example.com"
  /\ URL.plain_hostname "shop.example.com" = true
  /\ rawPath double_slash_query_event = "//" +:+ "Evil.example" +:+ "/cart"
  /\ URL.plain_hostname "Evil.example" = true
  /\ plain_path "/cart" = true
  /\ plain_query (rawQueryString double_slash_query_event) = true
  /\ exists u,
       request_url double_slash_query_event = Normal u
       /\ URL.host u = "evil.example"
       /\ URL.pathname u = "/cart"
       /\ default "" (URL.query u) = "id=7".
Proof.
  split; [reflexivity|]. split; [reflexivity|]. split; [reflexivity|].
  split; [reflexivity|]. split; [reflexivity|]. split; [reflexivity|].
  exact (X14_double_slash_host double_slash_query_event "shop.example.com"
           "Evil.example" "/cart" eq_refl eq_refl eq_refl eq_refl eq_refl eq_refl).
Defined.

Lemma Forall_removelast {A : Type} (P : A -> Prop) (l : list A) :
  Forall P l -> Forall P (removelast l).
Proof.
  induction l as [|x l IH]; [done|]. intros [Hx Hl]%Forall_cons. simpl.
  destruct l as [|y l]; [constructor|]. apply Forall_cons. split; [done | by apply IH].
Qed.

Lemma end_segment_no_dot (path : list string) (buffer : string) (at_slash : bool) :
  Forall (fun segment => dot_segment segment = false) path ->
  Forall (fun segment => dot_segment segment = false)
         (URL.end_segment path buffer at_slash).
Proof.
  intros Hpath. unfold URL.end_segment.
  destruct (URL.double_dot buffer) eqn:Hdd.
  - destruct at_slash; [by apply Forall_removelast|].
    apply Forall_app. split; [by apply Forall_removelast | by repeat constructor].
  - destruct (URL.single_dot buffer) eqn:Hsd.
    + destruct at_slash; [done|]. apply Forall_app. split; [done | by repeat constructor].
    + apply Forall_app. split; [done|]. repeat constructor. unfold dot_segment.
      by rewrite Hsd, Hdd.
Qed.

Lemma path_state_no_dot (host : string) (port : option N) (s : string) :
  forall (path : list string) (buffer : string) (u : URL.t),
  Forall (fun segment => dot_segment segment = false) path ->
  URL.path_state host port path buffer s = Normal u ->
  Forall (fun segment => dot_segment segment = false) (URL.path u).
Proof.
  induction s as [|c s IH]; intros path buffer u Hpath.
  - simpl. intros [= <-]. simpl. by apply end_segment_no_dot.
  - rewrite path_state_cons. destruct (URL.slash c).
    { apply IH. by apply end_segment_no_dot. }
    destruct (URL.is_in [63]%N c).
    { destruct (URL.query_state s). intros [= <-]. simpl. by apply end_segment_no_dot. }
    destruct (URL.is_in [35]%N c).
    { intros [= <-]. simpl. by apply end_segment_no_dot. }
    destruct (URL.is_in [94]%N c); [done|]. by apply IH.
Qed.

(** X15: the path of the URL of a request never has a dot segment: [.],
    [..] and their percent-encoded spellings are resolved and gone, so no
    path climbs above the root. *)
Theorem X15_no_dot_segments (event : Event) (u : URL.t) :
  request_url event = Normal u ->
  Forall (fun segment => dot_segment segment = false) (URL.path u).
Proof.
  unfold request_url, URL.new.
  destruct (URL.parse_base _) as [[host port]|]; [|done]. rewrite bind_Normal.
  unfold URL.parse_relative. destruct (URL.clean _) as [|c s1]; [done|].
  destruct (URL.slash c); [|done].
  destruct s1 as [|c2 s2]; [by apply path_state_no_dot|].
  destruct (URL.slash c2); [|by apply path_state_no_dot].
  destruct (URL.span _ _) as [authority rest].
  destruct (URL.parse_authority authority) as [[host' port']|]; [|done].
  rewrite bind_Normal. unfold URL.path_start_state.
  destruct rest as [|c3 rest]; [by apply path_state_no_dot|].
  destruct (URL.slash c3); by apply path_state_no_dot.
Qed.

Lemma X15_witness :
  exists u,
    request_url dots_event = Normal u
    /\ URL.pathname u = "/a/"
    /\ Forall (fun segment => dot_segment segment = false) (URL.path u).
Proof.
  eexists. split; [reflexivity|]. split; [reflexivity|].
  exact (X15_no_dot_segments dots_event _ eq_refl).
Defined.

Lemma parse_authority_port (h d : string) :
  URL.plain_hostname h = true ->
  URL.parse_authority (h +:+ String ":" d)
  = (p ← URL.parse_port d; Normal (JS.toLowerCase h, p)).
Proof.
  intros Hh. unfold URL.parse_authority. rewrite span_app; [|  |done].
  - unfold URL.parse_host. by rewrite Hh.
  - pose proof (plain_hostname_hostname_chars _ _ Hh) as Hall. revert Hall.
    apply all_chars_impl. intros c Hc. by apply hostname_char_spec in Hc as (_ & _ & _ & ?).
Qed.

Lemma parse_base_port (h d : string) :
  URL.plain_hostname h = true -> JS.all_chars URL.ascii_digit d = true ->
  URL.parse_base ("https://" +:+ h +:+ String ":" d)
  = (p ← URL.parse_port d; Normal (JS.toLowerCase h, p)).
Proof.
  intros Hh Hd. unfold URL.parse_base. rewrite clean_visible.
  - rewrite strip_prefix_app. by apply parse_authority_port.
  - rewrite !all_chars_app. simpl. apply andb_true_intro. split.
    + pose proof (plain_hostname_hostname_chars _ _ Hh) as Hall. revert Hall.
      apply all_chars_impl. intros c Hc. by apply hostname_char_spec in Hc as (? & _).
    + revert Hd. apply all_chars_impl, digit_spec.
Qed.

(** X16: a port in the host of the event goes through the port state of
    the URL parser.  Above 65535 the constructor throws and there is no
    request; otherwise the host of the URL is the host name in lower case,
    with the port in decimal without leading zeros unless it is 443, the
    default of https. *)
Theorem X16_host_port (event : Event) (h d : string) :
  request_host event = Some (h +:+ String ":" d) ->
  URL.plain_hostname h = true ->
  JS.all_chars URL.ascii_digit d = true ->
  d <> "" ->
  ((65535 < URL.decimal 0 d)%N ->
   request_url event = Abrupt TypeError
   /\ forall a, createRemixRequest event a = Abrupt TypeError)
  /\ ((URL.decimal 0 d <= 65535)%N ->
      single_slash (URL.clean (rawPath event +:+ request_search event)) = true ->
      no_caret (rawPath event) = true ->
      no_caret (rawQueryString event) = true ->
      exists u,
        request_url event = Normal u
        /\ URL.host u = if (URL.decimal 0 d =? 443)%N then JS.toLowerCase h
                        else JS.toLowerCase h +:+ ":" +:+ pretty (URL.decimal 0 d)).
Proof.
  intros Hhost Hh Hd Hne%eqb_false.
  assert (URL.parse_base ("https://" +:+ JS.template (request_host event))
          = if (65535 <? URL.decimal 0 d)%N then Abrupt TypeError
            else Normal (JS.toLowerCase h,
                         if (URL.decimal 0 d =? 443)%N then None
                         else Some (URL.decimal 0 d))) as Hbase.
  { rewrite Hhost. simpl JS.template. rewrite parse_base_port by done.
    unfold URL.parse_port. rewrite Hd, Hne.
    destruct (65535 <? URL.decimal 0 d)%N; [done|].
    by destruct (URL.decimal 0 d =? 443)%N. }
  split.
  - intros Hbig%N.ltb_lt. rewrite Hbig in Hbase.
    assert (request_url event = Abrupt TypeError) as Hurl.
    { unfold request_url, URL.new. by rewrite Hbase. }
    split; [done|]. intros a. unfold createRemixRequest. by rewrite Hurl.
  - intros Hsmall Hslash Hp Hq. apply N.ltb_ge in Hsmall. rewrite Hsmall in Hbase.
    destruct (new_single_slash _ _ _ _ Hbase Hslash) as [Hhp Hex].
    destruct Hex as [u Hu]; [by apply no_caret_search|].
    exists u. split; [exact Hu|].
    apply Hhp in Hu as [Hname Hport]. unfold URL.host. rewrite Hport, Hname.
    by destruct (URL.decimal 0 d =? 443)%N.
Qed.

Lemma X16_witness :
  request_host big_port_event = Some ("example.com" +:+ String ":" "65536")
  /\ request_url big_port_event = Abrupt TypeError
  /\ request_host default_port_event = Some ("example.com" +:+ String ":" "0443")
  /\ (exists u, request_url default_port_event = Normal u /\ URL.host u = "example.com")
  /\ request_host port_event = Some ("Example.com" +:+ String ":" "8080")
  /\ (exists u, request_url port_event = Normal u /\ URL.host u = "example.com:8080").
Proof.
  assert ("65536" <> "") as H1 by discriminate.
  assert ("0443" <> "") as H2 by discriminate.
  assert ("8080" <> "") as H3 by discriminate.
  assert (65535 < URL.decimal 0 "65536")%N as Hbig by reflexivity.
  assert (URL.decimal 0 "0443" <= 65535)%N as Hs2 by discriminate.
  assert (URL.decimal 0 "8080" <= 65535)%N as Hs3 by discriminate.
  split; [reflexivity|]. split.
  { exact (proj1 (proj1 (X16_host_port big_port_event "example.com" "65536"
                           eq_refl eq_refl eq_refl H1) Hbig)). }
  split; [reflexivity|]. split.
  { exact (proj2 (X16_host_port default_port_event "example.com" "0443"
                    eq_refl eq_refl eq_refl H2) Hs2 eq_refl eq_refl eq_refl). }
  split; [reflexivity|].
  exact (proj2 (X16_host_port port_event "Example.com" "8080"
                  eq_refl eq_refl eq_refl H3) Hs3 eq_refl eq_refl eq_refl).
Defined.

(** ** [createRequestHandler] *)

(** X17: an event with an illegal header name or value, or a cookie list
    that is no header value, makes the handler of [createRequestHandler]
    reject with a TypeError, whatever [handleRequest] and [getLoadContext]
    are: neither is reached. *)
Theorem X17_handler_illegal_headers {LoadContext : Type} (binaryTypes : list string)
    (handleRequest : RemixHandler LoadContext)
    (getLoadContext : option (Event -> completion LoadContext))
    (event : Event) (u : URL.t) :
  request_url event = Normal u ->
  legal_headers (event_headers event) && legal_cookies (event_cookies event) = false ->
  createRequestHandler binaryTypes handleRequest getLoadContext event = Abrupt TypeError.
Proof.
  intros Hu Hillegal. unfold createRequestHandler, createRemixRequest.
  rewrite Hu, bind_Normal.
  assert (createRemixHeaders (event_headers event) (event_cookies event)
          = Abrupt TypeError) as ->; [|done].
  unfold createRemixHeaders. destruct (legal_headers (event_headers event)) eqn:Hh.
  - destruct (append_headers_Normal Headers.empty _ Hh) as [base ->].
    rewrite bind_Normal. destruct (event_cookies event) as [cookies|]; [|done].
    simpl in Hillegal. by apply append_illegal.
  - by rewrite append_headers_illegal.
Qed.

Lemma X17_witness :
  (exists u, request_url illegal_name_event = Normal u)
  /\ legal_headers (event_headers illegal_name_event)
       && legal_cookies (event_cookies illegal_name_event) = false
  /\ createRequestHandler ["image/png"] aborting_handler None illegal_name_event
     = Abrupt TypeError.
Proof.
  split; [by eexists|]. split; [reflexivity|].
  exact (X17_handler_illegal_headers ["image/png"] aborting_handler None
           illegal_name_event _ eq_refl eq_refl).
Defined.

Lemma createRemixRequest_controller (event : Event) (a : option AbortController)
    (request : NodeRequest) :
  createRemixRequest event a = Normal request ->
  request_abortController request = a /\ request_signal request = a.
Proof.
  unfold createRemixRequest.
  destruct (request_url event) as [u|]; [|done].
  destruct (createRemixHeaders _ _) as [h|]; [|done].
  destruct (request_body_init event) as [b|]; [|done].
  rewrite !bind_Normal. by intros [= <-].
Qed.

(** X19: when the request is built and [handleRequest] answers, the reply
    of the handler is made of the response: its status, the values of its
    [Set-Cookie] headers as cookies, the string of its body; the handler was
    given a controller that is not aborted, and the reply has [connection]
    set to [close] when the handler left the controller aborted, and the
    [Connection] header of the response, if any, when it did not. *)
Theorem X19_handler_reply {LoadContext : Type} (binaryTypes : list string)
    (handleRequest : RemixHandler LoadContext)
    (getLoadContext : option (Event -> completion LoadContext))
    (event : Event) (request : NodeRequest) (context : option LoadContext)
    (response : NodeResponse) (controller : AbortController) (buffer : Buffer) :
  createRemixRequest event (Some (mkAbortController false)) = Normal request ->
  load_context getLoadContext event = Normal context ->
  handleRequest request context = Normal (response, controller) ->
  Headers.wf (headers response) = true ->
  bufferStream (body response) = Normal buffer ->
  request_abortController request = Some (mkAbortController false)
  /\ exists reply,
       createRequestHandler binaryTypes handleRequest getLoadContext event = Normal reply
       /\ statusCode reply = status response
       /\ cookies reply = set_cookie_values (Headers.raw (headers response))
       /\ reply_body reply = Utf8 buffer
       /\ reply_headers reply !! "connection"
          = if aborted controller then Some "close"
            else header_value (headers response) "connection".
Proof.
  intros Hrequest Hcontext Hanswer Hwf%wf_well_formed Hbody. split.
  - by apply createRemixRequest_controller in Hrequest as [? _].
  - unfold createRequestHandler. rewrite Hrequest, Hcontext, !bind_Normal.
    rewrite Hanswer, bind_Normal. simpl.
    destruct (sendRemixResponse_eq binaryTypes response controller)
      as (h & ct & Hh & _ & ->).
    rewrite (body_string_drained _ _ _ Hbody), bind_Normal. eexists. split; [done|]. simpl.
    split; [done|]. split; [apply collect_cookies_values|]. split; [done|].
    destruct (final_headers_no_set_cookie _ _ _ Hwf Hh) as [_ Hwf'].
    destruct (aborted controller) eqn:Ha.
    + destruct (final_headers_connection _ _ _ Ha Hh) as (key & Hkey & Hget).
      rewrite <- Hkey. by rewrite (reply_lookup_Some h key ["close"]).
    + rewrite reply_lookup by done. simpl.
      apply (final_headers_header_value response controller h "connection"); [done|done|].
      by left.
Qed.

Lemma X19_witness :
  createRemixRequest cookie_event (Some (mkAbortController false))
  = Normal (mkRequest "https://example.com/cart" "GET"
              [("host", ["example.com"]); ("accept", ["text/html"]); ("Cookie", ["a=1; b=2"])]
              None (Some (mkAbortController false)) (Some (mkAbortController false)))
  /\ Headers.wf (headers text_response) = true
  /\ bufferStream (body text_response) = Normal [Byte.x6f; Byte.x6b]
  /\ exists reply,
       createRequestHandler ["image/png"] aborting_handler None cookie_event = Normal reply
       /\ statusCode reply = 200%Z
       /\ cookies reply = ["x=1"; "y=2"]
       /\ reply_body reply = Utf8 [Byte.x6f; Byte.x6b]
       /\ reply_headers reply !! "connection" = Some "close".
Proof.
  split; [reflexivity|]. split; [reflexivity|]. split; [reflexivity|].
  exact (proj2 (X19_handler_reply ["image/png"] aborting_handler None cookie_event
                  _ None text_response (mkAbortController true) [Byte.x6f; Byte.x6b]
                  eq_refl eq_refl eq_refl eq_refl eq_refl)).
Defined.

(** ** What the headers show *)

Lemma header_value_joined (h : Headers.t) (name : string) :
  well_formed h -> header_value h name = joined (values_of h name).
Proof.
  intros [_ Hne]. unfold header_value, values_of.
  destruct (Headers.find h name) as [key|] eqn:F; [|done].
  destruct (JS.get_prop h key) as [vs|] eqn:G; [|done]. simpl.
  assert (vs <> []) as Hvs.
  { clear F. induction h as [|[k vs'] h IH]; [done|]. simpl in G.
    apply Forall_cons in Hne as [Hk Hne]. destruct (String.eqb k key); [|by apply IH].
    by injection G as <-. }
  by destruct vs.
Qed.

(** X20: [get] on the headers [createRemixHeaders] returns, which are the
    ones [createRemixRequest] hands to the constructor of the request,
    answers for a name that is a token the values the event gives for that
    name, and for [cookie] the joined cookie list after them, joined by a
    comma and a space; it answers null when there is none. *)
Theorem X20_createRemixHeaders_get (requestHeaders : JS.object (option string))
    (requestCookies : option (list string)) (h : Headers.t) (name : string) :
  createRemixHeaders requestHeaders requestCookies = Normal h ->
  Headers.validName name = true ->
  Headers.get h name
  = Normal (joined (matching_values requestHeaders name
                      ++ match requestCookies with
                         | Some cookies =>
                             if String.eqb (JS.toLowerCase name) "cookie"
                             then [JS.join "; " cookies] else []
                         | None => []
                         end)).
Proof.
  intros Hh Hn.
  rewrite get_header_value by done. f_equal.
  rewrite header_value_joined
    by (by apply wf_well_formed; apply createRemixHeaders_well_formed in Hh).
  f_equal. by apply createRemixHeaders_values.
Qed.

Lemma X20_witness :
  Headers.validName "Cookie" = true
  /\ exists h,
       createRemixHeaders (event_headers own_cookie_event) (event_cookies own_cookie_event)
       = Normal h
       /\ Headers.get h "Cookie" = Normal (Some "z=0, a=1; b=2")
       /\ Headers.get h "Content-Type" = Normal None.
Proof.
  split; [reflexivity|]. eexists. split; [reflexivity|]. split.
  - exact (X20_createRemixHeaders_get (event_headers own_cookie_event)
             (event_cookies own_cookie_event) _ "Cookie" eq_refl eq_refl).
  - exact (X20_createRemixHeaders_get (event_headers own_cookie_event)
             (event_cookies own_cookie_event) _ "Content-Type" eq_refl eq_refl).
Defined.
